(** * langgraph: the prebuilt tool node and the in-memory checkpoint saver

    A shallow embedding of [libs/langgraph/langgraph/prebuilt/tool_node.py]
    (the [ToolNode] dispatcher and the [tools_condition] routing predicate)
    and of the checkpoint listing contract exercised by
    [libs/checkpoint/tests/test_memory.py].

    Python dictionaries whose iteration order is observable (the tool
    catalog, whose keys are joined into an error message) are association
    lists in insertion order; all other dictionaries are [gmap]s.  Raising
    is an explicit result type, and every call that reaches a tool leaves
    an entry in a trace, so that "no tool was executed" is a statement
    about the trace. *)

From Stdlib Require Import ZArith.
From stdpp Require Import base option strings list gmap fin_maps sorting.

Set Warnings "-register-all,-clear-no-such-hyp".

(** ** Python values: exceptions and results *)

Module Py.

(** An exception object, as far as this code observes it: its class and
    what [repr(e)] prints.  Only subclasses of [Exception] are modelled:
    interpreter exits and keyboard interrupts are not caught by
    [except Exception] and are outside the model. *)
Record Exception := mkException {
  exc_class : string;
  exc_repr : string
}.

Definition repr (e : Exception) : string := exc_repr e.

Definition ValueError (msg : string) : Exception :=
  mkException "ValueError" ("ValueError('" +:+ msg +:+ "')").
Definition IndexError (msg : string) : Exception :=
  mkException "IndexError" ("IndexError('" +:+ msg +:+ "')").
Definition TypeError (msg : string) : Exception :=
  mkException "TypeError" ("TypeError('" +:+ msg +:+ "')").
Definition KeyError (key : string) : Exception :=
  mkException "KeyError" ("KeyError('" +:+ key +:+ "')").

(** The outcome of evaluating an expression: a value or a raised
    exception. *)
Inductive Result (A : Type) : Type :=
  | Ok (a : A)
  | Raise (e : Exception).
Arguments Ok {A} a.
Arguments Raise {A} e.

Definition rbind {A B} (r : Result A) (k : A → Result B) : Result B :=
  match r with
  | Ok a => k a
  | Raise e => Raise e
  end.

Definition rmap {A B} (f : A → B) (r : Result A) : Result B :=
  rbind r (λ a, Ok (f a)).

Definition is_ok {A} (r : Result A) : bool :=
  match r with Ok _ => true | Raise _ => false end.

(** [sep.join(parts)] *)
Fixpoint join (sep : string) (parts : list string) : string :=
  match parts with
  | [] => ""
  | [p] => p
  | p :: rest => p +:+ sep +:+ join sep rest
  end.

(** The line feed written [\n] in a Python string literal. *)
Definition LF : string := String (Ascii.ascii_of_nat 10) EmptyString.

(** A [dict] whose insertion order is observable.  [d[k] = v] keeps the
    position of a key that is already present and appends a new one. *)
Section ordered_dict.
Context {V : Type}.

Fixpoint dict_set (d : list (string * V)) (k : string) (v : V)
    : list (string * V) :=
  match d with
  | [] => [(k, v)]
  | (k', v') :: rest =>
      if decide (k' = k) then (k, v) :: rest
      else (k', v') :: dict_set rest k v
  end.

Fixpoint dict_get (d : list (string * V)) (k : string) : option V :=
  match d with
  | [] => None
  | (k', v') :: rest =>
      if decide (k' = k) then Some v' else dict_get rest k
  end.

Definition dict_keys (d : list (string * V)) : list string := d.*1.

(** [k in d] *)
Definition dict_contains (d : list (string * V)) (k : string) : bool :=
  bool_decide (k ∈ dict_keys d).
End ordered_dict.

End Py.
Import Py.

(** ** Messages (langchain_core.messages) *)

(** [ToolCall]: the name of the requested tool, its arguments and the
    identifier of the call, a string as the [ToolMessage] that answers
    the call requires. *)
Record ToolCall := mkToolCall {
  tc_name : string;
  tc_args : list (string * string);
  tc_id : string
}.

(** [ToolMessage(content, name=..., tool_call_id=...)] *)
Record ToolMessage := mkToolMessage {
  content : string;
  tm_name : string;
  tool_call_id : string
}.

#[global] Instance ToolCall_eq_dec : EqDecision ToolCall.
Proof. solve_decision. Defined.
#[global] Instance ToolMessage_eq_dec : EqDecision ToolMessage.
Proof. solve_decision. Defined.

(** The fields of an [AIMessage] this code reads. *)
Record AIMessageData := mkAIMessage {
  ai_content : string;
  tool_calls : list ToolCall
}.

(** [AnyMessage].  Only an [AIMessage] has a [tool_calls] attribute. *)
Inductive AnyMessage :=
  | AIMessage (m : AIMessageData)
  | HumanMessage (text : string)
  | SystemMessage (text : string)
  | ChatMessage (text role : string)
  | FunctionMessage (text fname : string)
  | ToolMsg (m : ToolMessage).

(** What a [dict[str, Any]] state can hold under a key. *)
Inductive PyVal :=
  | VNone
  | VBool (b : bool)
  | VInt (z : Z)
  | VStr (s : string)
  | VMessages (l : list AnyMessage).

(** What indexing with [-1] can hand back: a message, or a one-character
    string when the indexed value was a string. *)
Inductive PyObj :=
  | OMsg (m : AnyMessage)
  | OStr (s : string).

(** Truth value of a Python object in an [if]. *)
Definition truthy (v : PyVal) : bool :=
  match v with
  | VNone => false
  | VBool b => b
  | VInt z => negb (z =? 0)%Z
  | VStr s => negb (String.eqb s "")
  | VMessages l => negb (bool_decide (l = []))
  end.

Fixpoint last_char (s : string) : string :=
  match s with
  | EmptyString => EmptyString
  | String c EmptyString => String c EmptyString
  | String _ rest => last_char rest
  end.

(** [l[-1]] on a list *)
Definition list_last {A} (l : list A) : Result A :=
  match last l with
  | Some x => Ok x
  | None => Raise (IndexError "list index out of range")
  end.

(** [v[-1]] on an arbitrary value *)
Definition subscript_last (v : PyVal) : Result PyObj :=
  match v with
  | VMessages l => rmap OMsg (list_last l)
  | VStr s =>
      if String.eqb s "" then Raise (IndexError "string index out of range")
      else Ok (OStr (last_char s))
  | VNone => Raise (TypeError "'NoneType' object is not subscriptable")
  | VBool _ => Raise (TypeError "'bool' object is not subscriptable")
  | VInt _ => Raise (TypeError "'int' object is not subscriptable")
  end.

(** The two shapes of input: a list of messages, or a state dictionary. *)
Inductive Input :=
  | InList (l : list AnyMessage)
  | InDict (d : gmap string PyVal).

(** [d.get("messages", [])] *)
Definition get_messages (d : gmap string PyVal) : PyVal :=
  default (VMessages []) (d !! "messages").

(** The two shapes of output. *)
Inductive Output :=
  | OutList (l : list ToolMessage)
  | OutDict (d : gmap string (list ToolMessage)).

Inductive OutputType := output_list | output_dict.

(** ** Tools and the runtime around them (langchain_core) *)

(** [RunnableConfig], passed through to the tools unchanged. *)
Record RunnableConfig := mkConfig {
  run_id : option string;
  max_concurrency : option nat;
  tags : list string
}.

(** The dictionary [{**call, **{"type": "tool_call"}}] handed to a tool. *)
Record ToolCallInput := mkToolCallInput {
  in_name : string;
  in_args : list (string * string);
  in_id : string;
  in_type : string
}.

(** [BaseTool]: a name and the two entry points the node calls.  What a
    tool does with its input is arbitrary: it returns a message or
    raises. *)
Record BaseTool := mkTool {
  name : string;
  invoke : ToolCallInput → RunnableConfig → Result ToolMessage;
  ainvoke : ToolCallInput → RunnableConfig → Result ToolMessage
}.

(** A plain callable, as [create_tool] sees it: its [__name__] and its
    body, from arguments to an output or an exception. *)
Record Callable := mkCallable {
  fn_name : string;
  fn_body : list (string * string) → Result string
}.

(** [create_tool(fn)]: the structured tool built from a callable.  Called
    with a tool call, it answers with a [ToolMessage] that carries the
    output, the tool's name and the id of the call. *)
Definition create_tool (fn : Callable) : BaseTool :=
  let run input (_ : RunnableConfig) :=
    rmap (λ out, mkToolMessage out (fn_name fn) (in_id input))
         (fn_body fn (in_args input)) in
  mkTool (fn_name fn) run run.

(** One call that reached a tool. *)
Record Invocation := mkInvocation {
  inv_tool : string;
  inv_input : ToolCallInput;
  inv_config : RunnableConfig
}.

(** A computation that may call tools: the trace of the calls it made,
    in the order they were started, and its result. *)
Definition Exec (A : Type) : Type := (list Invocation * Result A)%type.

Definition ret {A} (a : A) : Exec A := ([], Ok a).
Definition raise {A} (e : Exception) : Exec A := ([], Raise e).
Definition lift {A} (r : Result A) : Exec A := ([], r).

Definition bind {A B} (m : Exec A) (k : A → Exec B) : Exec B :=
  match m with
  | (t, Ok a) => let '(t', r) := k a in (t ++ t', r)
  | (t, Raise e) => (t, Raise e)
  end.

#[global] Instance Exec_ret : MRet Exec := @ret.
#[global] Instance Exec_bind : MBind Exec := λ A B k m, bind m k.

(** [try: body / except Exception as e: handler(e)] *)
Definition try_except {A} (body : Exec A) (handler : Exception → Exec A)
    : Exec A :=
  match body with
  | (t, Ok a) => (t, Ok a)
  | (t, Raise e) => let '(t', r) := handler e in (t ++ t', r)
  end.

(** [tool.invoke(input, config)] and [await tool.ainvoke(input, config)] *)
Definition call_invoke (t : BaseTool) (input : ToolCallInput)
    (config : RunnableConfig) : Exec ToolMessage :=
  ([mkInvocation (name t) input config], invoke t input config).

Definition call_ainvoke (t : BaseTool) (input : ToolCallInput)
    (config : RunnableConfig) : Exec ToolMessage :=
  ([mkInvocation (name t) input config], ainvoke t input config).

(** The results of a batch in input order, or the first exception in
    input order. *)
Fixpoint sequence {A} (rs : list (Result A)) : Result (list A) :=
  match rs with
  | [] => Ok []
  | Raise e :: _ => Raise e
  | Ok a :: rest => rmap (cons a) (sequence rest)
  end.

(** [executor.map(f, xs, ys)], read into a list inside
    [with get_executor_for_config]:
    every pair of the zipped arguments is submitted to the pool at once,
    and the results are then read back by position.  The first exception
    met while reading is the one that propagates.  The trace lists the
    calls in the order they were submitted; that the pool may drop calls
    still waiting once an exception has propagated is not recorded. *)
Definition executor_map {A B C} (f : A → B → Exec C)
    (xs : list A) (ys : list B) : Exec (list C) :=
  let futures := zip_with f xs ys in
  (concat futures.*1, sequence futures.*2).

(** The exception of the task that fails first under a completion
    order. *)
Fixpoint first_raised {A} (schedule : list nat) (rs : list (Result A))
    : option Exception :=
  match schedule with
  | [] => None
  | i :: rest =>
      match rs !! i with
      | Some (Raise e) => Some e
      | _ => first_raised rest rs
      end
  end.

(** [await asyncio.gather] over the tasks: they complete in the order
    [schedule]; the results are returned by position, and the exception
    of the first task to fail is raised as soon as it fails. *)
Definition gather {A} (schedule : list nat) (tasks : list (Exec A))
    : Exec (list A) :=
  (concat tasks.*1,
   match first_raised schedule tasks.*2 with
   | Some e => Raise e
   | None => sequence tasks.*2
   end).

(** ** The tool node (prebuilt/tool_node.py) *)

Definition INVALID_TOOL_NAME_ERROR_TEMPLATE
    (requested_tool available_tools : string) : string :=
  "Error: " +:+ requested_tool +:+ " is not a valid tool, try one of ["
    +:+ available_tools +:+ "].".

Definition TOOL_CALL_ERROR_TEMPLATE (error : string) : string :=
  "Error: " +:+ error +:+ LF +:+ " Please fix your mistakes.".

(** The attributes of a [ToolNode] set by [__init__]. *)
Record ToolNode := mkToolNode {
  tools_by_name : list (string * BaseTool);
  handle_tool_errors : option bool
}.

(** [not self.handle_tool_errors] on an [Optional[bool]] *)
Definition not_ (b : option bool) : bool :=
  match b with
  | Some true => false
  | Some false | None => true
  end.

(** [ToolNode.__init__(tools, handle_tool_errors=...)].  The [name] and
    [tags] arguments only label the runnable. *)
Definition ToolNode_init (tools : list (BaseTool + Callable))
    (handle_tool_errors : option bool) : ToolNode :=
  let register d tool_ :=
    let tool_ := match tool_ with
                 | inl t => t
                 | inr fn => create_tool fn
                 end in
    dict_set d (name tool_) tool_ in
  mkToolNode (fold_left register tools []) handle_tool_errors.

(** [ToolNode._validate_tool_call] *)
Definition _validate_tool_call (self : ToolNode) (call : ToolCall)
    : option ToolMessage :=
  let requested_tool := tc_name call in
  if negb (dict_contains (tools_by_name self) requested_tool) then
    let content :=
      INVALID_TOOL_NAME_ERROR_TEMPLATE requested_tool
        (join ", " (dict_keys (tools_by_name self))) in
    Some (mkToolMessage content requested_tool (tc_id call))
  else None.

(** [self.tools_by_name[key]] *)
Definition tools_by_name_item (self : ToolNode) (key : string)
    : Exec BaseTool :=
  match dict_get (tools_by_name self) key with
  | Some t => ret t
  | None => raise (KeyError key)
  end.

Definition tool_call_input (call : ToolCall) : ToolCallInput :=
  mkToolCallInput (tc_name call) (tc_args call) (tc_id call) "tool_call".

(** The [except] branch shared by [_run_one] and [_arun_one]. *)
Definition on_tool_error (self : ToolNode) (call : ToolCall)
    (e : Exception) : Exec ToolMessage :=
  if not_ (handle_tool_errors self) then raise e
  else
    let content := TOOL_CALL_ERROR_TEMPLATE (repr e) in
    ret (mkToolMessage content (tc_name call) (tc_id call)).

(** [ToolNode._run_one] *)
Definition _run_one (self : ToolNode) (call : ToolCall)
    (config : RunnableConfig) : Exec ToolMessage :=
  match _validate_tool_call self call with
  | Some invalid_tool_message => ret invalid_tool_message
  | None =>
      try_except
        (let input := tool_call_input call in
         tool ← tools_by_name_item self (tc_name call);
         call_invoke tool input config)
        (on_tool_error self call)
  end.

(** [ToolNode._arun_one] *)
Definition _arun_one (self : ToolNode) (call : ToolCall)
    (config : RunnableConfig) : Exec ToolMessage :=
  match _validate_tool_call self call with
  | Some invalid_tool_message => ret invalid_tool_message
  | None =>
      try_except
        (let input := tool_call_input call in
         tool ← tools_by_name_item self (tc_name call);
         call_ainvoke tool input config)
        (on_tool_error self call)
  end.

(** [isinstance(message, AIMessage)] followed by the cast. *)
Definition as_AIMessage (message : PyObj) : option AIMessageData :=
  match message with
  | OMsg (AIMessage m) => Some m
  | _ => None
  end.

(** [ToolNode._parse_input] *)
Definition _parse_input (input : Input)
    : Result (AIMessageData * OutputType) :=
  rbind
    (match input with
     | InList l =>
         rmap (λ message, (OMsg message, output_list)) (list_last l)
     | InDict d =>
         let messages := get_messages d in
         if truthy messages then
           rmap (λ message, (message, output_dict)) (subscript_last messages)
         else Raise (ValueError "No message found in input")
     end)
    (λ '(message, output_type),
       match as_AIMessage message with
       | None => Raise (ValueError "Last message is not an AIMessage")
       | Some ai => Ok (ai, output_type)
       end).

(** [outputs if output_type == "list" else {"messages": outputs}] *)
Definition assemble (output_type : OutputType) (outputs : list ToolMessage)
    : Output :=
  match output_type with
  | output_list => OutList outputs
  | output_dict => OutDict {[ "messages" := outputs ]}
  end.

(** [ToolNode._afunc].  [schedule] is the order in which the event loop
    completes the tasks. *)
Definition _afunc (schedule : list nat) (self : ToolNode) (input : Input)
    (config : RunnableConfig) : Exec Output :=
  '(message, output_type) ← lift (_parse_input input);
  outputs ←
    gather schedule
      (map (λ call, _arun_one self call config) (tool_calls message));
  ret (assemble output_type outputs).

Section sync_dispatch.
(** [get_config_list(config, n)] of langchain_core: the configurations
    of a batch of [n] calls derived from one configuration. *)
Variable get_config_list : RunnableConfig → nat → list RunnableConfig.

(** [ToolNode._func] *)
Definition _func (self : ToolNode) (input : Input)
    (config : RunnableConfig) : Exec Output :=
  '(message, output_type) ← lift (_parse_input input);
  let config_list :=
    get_config_list config (length (tool_calls message)) in
  outputs ←
    executor_map (_run_one self) (tool_calls message) config_list;
  ret (assemble output_type outputs).
End sync_dispatch.

(** [hasattr(obj, "tool_calls")] and the attribute when it is there. *)
Definition getattr_tool_calls (obj : PyObj) : option (list ToolCall) :=
  match obj with
  | OMsg (AIMessage m) => Some (tool_calls m)
  | _ => None
  end.

(** [tools_condition].  The text of the error ends with the printed
    state, which is left out. *)
Definition tools_condition (state : Input) : Result string :=
  rbind
    (match state with
     | InList l => rmap OMsg (list_last l)
     | InDict d =>
         let messages := get_messages d in
         if truthy messages then subscript_last messages
         else Raise (ValueError
                "No messages found in input state to tool_edge: ")
     end)
    (λ ai_message,
       match getattr_tool_calls ai_message with
       | Some calls =>
           if bool_decide (0 < length calls) then Ok "tools"
           else Ok "__end__"
       | None => Ok "__end__"
       end).

(** ** Vocabulary of the specification *)

(** The terminal states of one invocation. *)
Inductive Outcome :=
  | rejected_unknown_action
  | failed_isolated
  | succeeded.

#[global] Instance Outcome_eq_dec : EqDecision Outcome.
Proof. solve_decision. Defined.

(** An entry point of a tool: [invoke] for the blocking path, [ainvoke]
    for the asynchronous one. *)
Definition EntryPoint : Type :=
  BaseTool → ToolCallInput → RunnableConfig → Result ToolMessage.

(** The terminal state an invocation is headed for: its name is not in
    the catalog, or the tool it names raises, or that tool returns. *)
Definition outcome (entry : EntryPoint) (self : ToolNode) (call : ToolCall)
    (config : RunnableConfig) : Outcome :=
  match dict_get (tools_by_name self) (tc_name call) with
  | None => rejected_unknown_action
  | Some t =>
      if is_ok (entry t (tool_call_input call) config) then succeeded
      else failed_isolated
  end.

Definition count (k : Outcome) (l : list Outcome) : nat :=
  length (filter (λ o, o = k) l).

(** [is_record entry self call config k out]: [out] is the result record
    of kind [k] for [call]. *)
Inductive is_record (entry : EntryPoint) (self : ToolNode) (call : ToolCall)
    (config : RunnableConfig) : Outcome → ToolMessage → Prop :=
  | unknown_action_record :
      dict_get (tools_by_name self) (tc_name call) = None →
      is_record entry self call config rejected_unknown_action
        (mkToolMessage
           (INVALID_TOOL_NAME_ERROR_TEMPLATE (tc_name call)
              (join ", " (dict_keys (tools_by_name self))))
           (tc_name call) (tc_id call))
  | execution_failure_record t e :
      dict_get (tools_by_name self) (tc_name call) = Some t →
      entry t (tool_call_input call) config = Raise e →
      is_record entry self call config failed_isolated
        (mkToolMessage (TOOL_CALL_ERROR_TEMPLATE (repr e))
           (tc_name call) (tc_id call))
  | success_record t out :
      dict_get (tools_by_name self) (tc_name call) = Some t →
      entry t (tool_call_input call) config = Ok out →
      is_record entry self call config succeeded out.

(** A trigger the node accepts: the last message of the list, or of the
    list under ["messages"], is an [AIMessage]. *)
Definition well_formed (input : Input) (message : AIMessageData) : Prop :=
  match input with
  | InList l => last l = Some (AIMessage message)
  | InDict d =>
      ∃ l, d !! "messages" = Some (VMessages l)
           ∧ last l = Some (AIMessage message)
  end.

(** The shape the output takes for a given input. *)
Definition shape_of (input : Input) : OutputType :=
  match input with
  | InList _ => output_list
  | InDict _ => output_dict
  end.

(** The last message has a [tool_calls] attribute that is not empty. *)
Definition has_tool_calls (m : AnyMessage) : Prop :=
  ∃ ai, m = AIMessage ai ∧ tool_calls ai ≠ [].

(** The execution-failure template as the specification words it. *)
Definition spec_TOOL_CALL_ERROR_TEMPLATE (error : string) : string :=
  "Error: " +:+ error +:+ LF +:+ "Please fix your mistakes.".

(** ** Concrete tools and triggers *)

Module Scenario.

Definition config : RunnableConfig := mkConfig None None [].

(** [get_config_list] on a configuration without a run id: the same
    configuration for every call. *)
Definition get_config_list (c : RunnableConfig) (n : nat)
    : list RunnableConfig := replicate n c.

(** A tool that answers. *)
Definition search : BaseTool :=
  let run input (_ : RunnableConfig) :=
    Ok (mkToolMessage "3 results" "search" (in_id input)) in
  mkTool "search" run run.

(** A tool that raises. *)
Definition divide : BaseTool :=
  let run (_ : ToolCallInput) (_ : RunnableConfig) :=
    Raise (mkException "ZeroDivisionError"
             "ZeroDivisionError('division by zero')") in
  mkTool "divide" run run.

Definition call_search : ToolCall := mkToolCall "search" [("q", "rocq")] "call-1".
Definition call_weather : ToolCall := mkToolCall "weather" [("city", "Paris")] "call-2".
Definition call_divide : ToolCall := mkToolCall "divide" [("a", "1"); ("b", "0")] "call-3".

Definition calls : list ToolCall := [call_search; call_weather; call_divide].

Definition ai_message : AIMessageData := mkAIMessage "" calls.
Definition ai_message_no_calls : AIMessageData := mkAIMessage "done" [].

Definition list_input : Input :=
  InList [HumanMessage "hello"; AIMessage ai_message].
Definition dict_input : Input :=
  InDict {[ "messages" := VMessages [HumanMessage "hello"; AIMessage ai_message] ]}.

(** The node with interception on (the default) and off. *)
Definition node : ToolNode := ToolNode_init [inl search; inl divide] (Some true).
Definition strict_node : ToolNode :=
  ToolNode_init [inl search; inl divide] (Some false).

End Scenario.

(** ** The checkpoint store *)

Module MemorySaver.

(** A metadata value: a scalar or a nested mapping.  Two values are equal
    when they have the same structure, whatever the order in which the
    keys of a mapping were written. *)
Inductive MetaVal :=
  | MNone
  | MBool (b : bool)
  | MInt (z : Z)
  | MStr (s : string)
  | MMap (m : gmap string MetaVal).

Fixpoint MetaVal_eq_dec (x y : MetaVal) : Decision (x = y).
Proof.
  refine
    match x, y with
    | MNone, MNone => left _
    | MBool a, MBool b => cast_if (decide (a = b))
    | MInt a, MInt b => cast_if (decide (a = b))
    | MStr a, MStr b => cast_if (decide (a = b))
    | MMap a, MMap b =>
        cast_if (@decide (a = b) (@gmap_eq_dec _ _ _ _ MetaVal_eq_dec a b))
    | _, _ => right _
    end; congruence.
Defined.

#[global] Instance MetaVal_eq : EqDecision MetaVal := MetaVal_eq_dec.

(** [CheckpointMetadata]: a flat mapping from keys to values. *)
Abbreviation CheckpointMetadata := (gmap string MetaVal).

(** [Checkpoint]; its payload is opaque to the store. *)
Record Checkpoint := mkCheckpoint {
  id : string;
  channel_values : gmap string string;
  channel_versions : gmap string nat;
  pending_sends : list string
}.

(** Where a checkpoint lives. *)
Record Address := mkAddress {
  thread_id : string;
  checkpoint_ns : string;
  checkpoint_id : option string
}.

(** The address a listing is scoped by: a thread and, optionally, a
    namespace. *)
Record AddressPrefix := mkPrefix {
  prefix_thread_id : string;
  prefix_checkpoint_ns : option string
}.

Record CheckpointTuple := mkTuple {
  address : Address;
  checkpoint : Checkpoint;
  metadata : CheckpointMetadata;
  parent_address : option Address
}.

(** One stored entry: the checkpoint, its metadata and the id of its
    parent. *)
Definition Entry : Type :=
  (Checkpoint * CheckpointMetadata * option string)%type.

(** Modelled from the spec: the storage of the in-memory reference store
    ([MemorySaver], whose source is not in the excerpt; only its test
    is).  A two-level mapping: [(thread_id, checkpoint_ns)] to the
    mapping from checkpoint id to entry. *)
Abbreviation Storage := (gmap (string * string) (gmap string Entry)).

(** Modelled from the spec: [put] of the missing store.  The checkpoint
    is stored under [(thread_id, checkpoint_ns, checkpoint.id)]; writing
    an id again replaces the entry.  The spec does not say where the
    parent id comes from: it is taken from the address when that carries
    an id. *)
Definition put (storage : Storage) (a : Address) (c : Checkpoint)
    (m : CheckpointMetadata) : Storage * Address :=
  let key := (thread_id a, checkpoint_ns a) in
  let bucket := default ∅ (storage !! key) in
  (<[key := <[id c := (c, m, checkpoint_id a)]> bucket]> storage,
   mkAddress (thread_id a) (checkpoint_ns a) (Some (id c))).

(** Newest first: descending checkpoint id. *)
Definition newer (x y : string * Entry) : Prop :=
  Is_true (String.leb y.1 x.1).

#[global] Instance newer_dec : RelDecision newer.
Proof. intros x y. unfold newer. apply _. Defined.

(** The tuples of one thread and namespace, newest first. *)
Definition bucket_tuples (storage : Storage) (thread ns : string)
    : list CheckpointTuple :=
  let bucket := default ∅ (storage !! (thread, ns)) in
  (λ '(i, (c, m, parent)),
     mkTuple (mkAddress thread ns (Some i)) c m
       ((λ p, mkAddress thread ns (Some p)) <$> parent))
  <$> merge_sort newer (map_to_list bucket).

(** Modelled from the spec: the filter test of the missing store.  Every
    key of the filter is present in the metadata with an equal value. *)
Definition matches (filter_ metadata : CheckpointMetadata) : Prop :=
  map_Forall (λ k v, metadata !! k = Some v) filter_.

#[global] Instance matches_dec filter_ metadata :
  Decision (matches filter_ metadata).
Proof. unfold matches. apply _. Defined.

(** The tuple is older than [before], when there is a [before]. *)
Definition is_before (before : option string) (t : CheckpointTuple) : Prop :=
  match before, checkpoint_id (address t) with
  | Some b, Some i => Is_true (String.ltb i b)
  | Some _, None => False
  | None, _ => True
  end.

#[global] Instance is_before_dec before t : Decision (is_before before t).
Proof.
  unfold is_before. destruct before, (checkpoint_id (address t)); apply _.
Defined.

(** The threads that have a bucket for the namespace. *)
Definition threads_of (storage : Storage) (ns : string) : list string :=
  (filter (λ key, key.2 = ns) (map_to_list storage).*1).*1.

(** Modelled from the spec: [list] of the missing store.  The scope is a
    thread and a namespace, the namespace being [""] when the caller
    names none; the tuples come newest first; [filter_] keeps the tuples
    whose metadata it matches, [before] those with a smaller id, and
    [limit] caps the result.  With no address at all, as the test calls
    it, every thread is in scope, still in the root namespace. *)
Definition list (storage : Storage) (config : option AddressPrefix)
    (filter_ : option CheckpointMetadata) (before : option string)
    (limit : option nat) : list CheckpointTuple :=
  let ns := default "" (config ≫= prefix_checkpoint_ns) in
  let threads :=
    match config with
    | Some c => [prefix_thread_id c]
    | None => threads_of storage ns
    end in
  let in_scope := threads ≫= (λ thread, bucket_tuples storage thread ns) in
  let found :=
    filter (λ t, matches (default ∅ filter_) (metadata t) ∧ is_before before t)
      in_scope in
  match limit with
  | Some n => take n found
  | None => found
  end.

(** Modelled from the spec: [get] of the missing store.  An exact lookup
    when the address carries an id, the newest checkpoint of the thread
    and namespace otherwise. *)
Definition get (storage : Storage) (a : Address) : option CheckpointTuple :=
  let tuples := bucket_tuples storage (thread_id a) (checkpoint_ns a) in
  match checkpoint_id a with
  | Some i =>
      head (filter (λ t, checkpoint_id (address t) = Some i) tuples)
  | None => head tuples
  end.

(** The fixtures of [TestMemorySaver]. *)
Module Fixture.

Definition config_1 : Address := mkAddress "thread-1" "" None.
Definition config_2 : Address := mkAddress "thread-2" "" (Some "2").
Definition config_3 : Address := mkAddress "thread-2" "inner" (Some "2-inner").

Definition chkpnt_1 : Checkpoint := mkCheckpoint "1" ∅ ∅ [].
Definition chkpnt_2 : Checkpoint := mkCheckpoint "2" ∅ ∅ [].
Definition chkpnt_3 : Checkpoint := mkCheckpoint "2-inner" ∅ ∅ [].

Definition metadata_1 : CheckpointMetadata :=
  {[ "source" := MStr "input"; "step" := MInt 2; "writes" := MMap ∅;
     "score" := MInt 1 ]}.
Definition metadata_2 : CheckpointMetadata :=
  {[ "source" := MStr "loop"; "step" := MInt 1;
     "writes" := MMap {[ "foo" := MStr "bar" ]}; "score" := MNone ]}.
Definition metadata_3 : CheckpointMetadata := ∅.

Definition query_1 : CheckpointMetadata := {[ "source" := MStr "input" ]}.
Definition query_2 : CheckpointMetadata :=
  {[ "step" := MInt 1; "writes" := MMap {[ "foo" := MStr "bar" ]} ]}.
Definition query_3 : CheckpointMetadata := ∅.
Definition query_4 : CheckpointMetadata :=
  {[ "source" := MStr "update"; "step" := MInt 1 ]}.

(** The store after the three [put]s of [test_search]. *)
Definition saved : Storage :=
  let s := (put ∅ config_1 chkpnt_1 metadata_1).1 in
  let s := (put s config_2 chkpnt_2 metadata_2).1 in
  (put s config_3 chkpnt_3 metadata_3).1.

End Fixture.

End MemorySaver.

(** ** Vocabulary for the catalog, the trace and the two shapes *)

(** The tool [__init__] registers for an element of its [tools]
    argument: the element itself, or [create_tool] of a callable. *)
Definition as_tool (tool_ : BaseTool + Callable) : BaseTool :=
  match tool_ with
  | inl t => t
  | inr fn => create_tool fn
  end.

(** The names of a list, each once, in the order of their first
    occurrence. *)
Fixpoint first_occurrences (names : list string) : list string :=
  match names with
  | [] => []
  | n :: rest => n :: filter (λ k, k ≠ n) (first_occurrences rest)
  end.

(** The call a tool receives for an invocation, when the catalog has the
    requested name. *)
Definition expected_invocation (self : ToolNode)
    (cc : ToolCall * RunnableConfig) : option Invocation :=
  t ← dict_get (tools_by_name self) (tc_name cc.1);
  Some (mkInvocation (name t) (tool_call_input cc.1) cc.2).

(** The bare list of records put under ["messages"]. *)
Definition as_dict_output (output : Output) : Output :=
  match output with
  | OutList outputs => OutDict {[ "messages" := outputs ]}
  | OutDict d => OutDict d
  end.

(** A tool that answers a call with the id of that call. *)
Definition echoes_call_id (t : BaseTool) : Prop :=
  ∀ input config out,
    invoke t input config = Ok out → tool_call_id out = in_id input.

(** ** Facts about the runtime *)

Section runtime_facts.
Context {A : Type}.
Implicit Types (rs : list (Result A)) (xs : list A).

Lemma sequence_Ok rs xs : sequence rs = Ok xs ↔ rs = Ok <$> xs.
Proof.
  revert xs. induction rs as [|[a|e] rs IH]; intros xs; simpl.
  - split; [intros [= <-]; done | by destruct xs].
  - destruct (sequence rs) as [ys|e'] eqn:Hs; simpl.
    + split.
      * intros [= <-]. simpl. f_equal. by apply IH.
      * destruct xs as [|x xs]; [done|]. intros [= -> Hrs].
        f_equal. f_equal. apply IH in Hrs. congruence.
    + split; [done|]. destruct xs as [|x xs]; [done|].
      intros [= -> Hrs]. apply IH in Hrs. congruence.
  - split; [done|]. by destruct xs.
Qed.

Lemma sequence_fmap_Ok xs : sequence (Ok <$> xs) = Ok xs.
Proof. by apply sequence_Ok. Qed.

(** A batch raises exactly when one of its members does, and what it
    raises is what a member raised. *)
Lemma sequence_Raise rs e :
  sequence rs = Raise e →
  ∃ i, rs !! i = Some (Raise e)
       ∧ ∀ j, j < i → ∃ a, rs !! j = Some (Ok a).
Proof.
  induction rs as [|[a|e'] rs IH]; simpl; [done| |].
  - destruct (sequence rs) as [ys|e''] eqn:Hs; simpl; [done|].
    intros [= ->]. destruct IH as (i & Hi & Hlt); [done|].
    exists (S i). split; [done|]. intros [|j] Hj; simpl; [eauto|].
    apply Hlt. lia.
  - intros [= ->]. exists 0. split; [done|]. intros j Hj. lia.
Qed.

Lemma sequence_member_raises rs i e :
  rs !! i = Some (Raise e) → ∃ e', sequence rs = Raise e'.
Proof.
  revert i. induction rs as [|[a|e'] rs IH]; intros i; simpl.
  - by rewrite lookup_nil.
  - destruct i as [|i]; simpl; [done|]. intros Hi.
    destruct (IH _ Hi) as [e' ->]. by exists e'.
  - intros _. by exists e'.
Qed.

Lemma first_raised_Some schedule rs e :
  first_raised schedule rs = Some e → ∃ i, rs !! i = Some (Raise e).
Proof.
  induction schedule as [|i schedule IH]; simpl; [done|].
  destruct (rs !! i) as [[a|e']|] eqn:Hi; [done| |done].
  intros [= ->]. eauto.
Qed.
End runtime_facts.

Lemma dict_get_contains {V} (d : list (string * V)) k :
  dict_contains d k = true ↔ is_Some (dict_get d k).
Proof.
  unfold dict_contains, dict_keys. rewrite bool_decide_eq_true.
  induction d as [|[k' v'] d IH]; simpl.
  - split; [by intros ?%elem_of_nil | by intros [? ?]].
  - rewrite elem_of_cons. destruct (decide (k' = k)) as [->|Hne].
    + split; [eauto | by left].
    + rewrite <-IH. split; [intros [->|?]; done | by right].
Qed.

Lemma dict_get_None {V} (d : list (string * V)) k :
  dict_contains d k = false ↔ dict_get d k = None.
Proof.
  rewrite <-not_true_iff_false, dict_get_contains.
  rewrite <-eq_None_not_Some. done.
Qed.

Lemma zip_with_snd {X Y B} (f : X → Y → Exec B) (xs : list X) (ys : list Y) :
  (zip_with f xs ys).*2 = zip_with (λ x y, (f x y).2) xs ys.
Proof.
  revert ys. induction xs as [|x xs IH]; intros [|y ys]; simpl; [done..|].
  by rewrite IH.
Qed.

Lemma executor_map_result {X Y B} (f : X → Y → Exec B) xs ys :
  (executor_map f xs ys).2 = sequence (zip_with (λ x y, (f x y).2) xs ys).
Proof. unfold executor_map. simpl. by rewrite zip_with_snd. Qed.

Lemma count_total (l : list Outcome) :
  count rejected_unknown_action l + count failed_isolated l
    + count succeeded l = length l.
Proof.
  unfold count. induction l as [|[] l IH]; simpl; [done|..];
    rewrite !filter_cons; repeat case_decide; simplify_eq; simpl; lia.
Qed.

(** ** One invocation at a time *)

Section one_invocation.
Context (self : ToolNode) (call : ToolCall) (config : RunnableConfig).

Local Abbreviation this_invocation t :=
  (mkInvocation (name t) (tool_call_input call) config).

Lemma run_one_unknown :
  dict_get (tools_by_name self) (tc_name call) = None →
  _run_one self call config =
    ([], Ok (mkToolMessage
               (INVALID_TOOL_NAME_ERROR_TEMPLATE (tc_name call)
                  (join ", " (dict_keys (tools_by_name self))))
               (tc_name call) (tc_id call))).
Proof.
  intros Hget. unfold _run_one, _validate_tool_call.
  apply dict_get_None in Hget. by rewrite Hget.
Qed.

Lemma arun_one_unknown :
  dict_get (tools_by_name self) (tc_name call) = None →
  _arun_one self call config = _run_one self call config.
Proof.
  intros Hget. unfold _arun_one, _run_one, _validate_tool_call.
  apply dict_get_None in Hget. by rewrite Hget.
Qed.

Lemma validate_known t :
  dict_get (tools_by_name self) (tc_name call) = Some t →
  _validate_tool_call self call = None.
Proof.
  intros Hget. unfold _validate_tool_call.
  assert (dict_contains (tools_by_name self) (tc_name call) = true) as ->;
    [|done].
  apply dict_get_contains. by rewrite Hget.
Qed.

Lemma run_one_returns t out :
  dict_get (tools_by_name self) (tc_name call) = Some t →
  invoke t (tool_call_input call) config = Ok out →
  _run_one self call config = ([this_invocation t], Ok out).
Proof.
  intros Hget Hinv. unfold _run_one. rewrite (validate_known t Hget).
  unfold tools_by_name_item, call_invoke. rewrite Hget. simpl.
  by rewrite Hinv.
Qed.

Lemma run_one_isolates t e :
  dict_get (tools_by_name self) (tc_name call) = Some t →
  invoke t (tool_call_input call) config = Raise e →
  not_ (handle_tool_errors self) = false →
  _run_one self call config =
    ([this_invocation t],
     Ok (mkToolMessage (TOOL_CALL_ERROR_TEMPLATE (repr e))
           (tc_name call) (tc_id call))).
Proof.
  intros Hget Hinv Hh. unfold _run_one. rewrite (validate_known t Hget).
  unfold tools_by_name_item, call_invoke, on_tool_error. rewrite Hget.
  simpl. by rewrite Hinv, Hh.
Qed.

Lemma run_one_propagates t e :
  dict_get (tools_by_name self) (tc_name call) = Some t →
  invoke t (tool_call_input call) config = Raise e →
  not_ (handle_tool_errors self) = true →
  _run_one self call config = ([this_invocation t], Raise e).
Proof.
  intros Hget Hinv Hh. unfold _run_one. rewrite (validate_known t Hget).
  unfold tools_by_name_item, call_invoke, on_tool_error. rewrite Hget.
  simpl. by rewrite Hinv, Hh.
Qed.

Lemma arun_one_returns t out :
  dict_get (tools_by_name self) (tc_name call) = Some t →
  ainvoke t (tool_call_input call) config = Ok out →
  _arun_one self call config = ([this_invocation t], Ok out).
Proof.
  intros Hget Hinv. unfold _arun_one. rewrite (validate_known t Hget).
  unfold tools_by_name_item, call_ainvoke. rewrite Hget. simpl.
  by rewrite Hinv.
Qed.

Lemma arun_one_isolates t e :
  dict_get (tools_by_name self) (tc_name call) = Some t →
  ainvoke t (tool_call_input call) config = Raise e →
  not_ (handle_tool_errors self) = false →
  _arun_one self call config =
    ([this_invocation t],
     Ok (mkToolMessage (TOOL_CALL_ERROR_TEMPLATE (repr e))
           (tc_name call) (tc_id call))).
Proof.
  intros Hget Hinv Hh. unfold _arun_one. rewrite (validate_known t Hget).
  unfold tools_by_name_item, call_ainvoke, on_tool_error. rewrite Hget.
  simpl. by rewrite Hinv, Hh.
Qed.

Lemma arun_one_propagates t e :
  dict_get (tools_by_name self) (tc_name call) = Some t →
  ainvoke t (tool_call_input call) config = Raise e →
  not_ (handle_tool_errors self) = true →
  _arun_one self call config = ([this_invocation t], Raise e).
Proof.
  intros Hget Hinv Hh. unfold _arun_one. rewrite (validate_known t Hget).
  unfold tools_by_name_item, call_ainvoke, on_tool_error. rewrite Hget.
  simpl. by rewrite Hinv, Hh.
Qed.

(** With interception on, an invocation always ends in a record, and the
    record is of the kind its outcome says. *)
Lemma run_one_record :
  not_ (handle_tool_errors self) = false →
  ∃ out, (_run_one self call config).2 = Ok out
         ∧ is_record invoke self call config
             (outcome invoke self call config) out.
Proof.
  intros Hh. unfold outcome.
  destruct (dict_get (tools_by_name self) (tc_name call)) as [t|] eqn:Hget.
  - destruct (invoke t (tool_call_input call) config) as [out|e] eqn:Hinv.
    + rewrite (run_one_returns t out) by done. eexists; split; [done|].
      by eapply success_record.
    + rewrite (run_one_isolates t e) by done. eexists; split; [done|].
      by eapply execution_failure_record.
  - rewrite run_one_unknown by done. eexists; split; [done|].
    by apply unknown_action_record.
Qed.

Lemma arun_one_record :
  not_ (handle_tool_errors self) = false →
  ∃ out, (_arun_one self call config).2 = Ok out
         ∧ is_record ainvoke self call config
             (outcome ainvoke self call config) out.
Proof.
  intros Hh. unfold outcome.
  destruct (dict_get (tools_by_name self) (tc_name call)) as [t|] eqn:Hget.
  - destruct (ainvoke t (tool_call_input call) config) as [out|e] eqn:Hinv.
    + rewrite (arun_one_returns t out) by done. eexists; split; [done|].
      by eapply success_record.
    + rewrite (arun_one_isolates t e) by done. eexists; split; [done|].
      by eapply execution_failure_record.
  - rewrite arun_one_unknown, run_one_unknown by done.
    eexists; split; [done|]. by apply unknown_action_record.
Qed.

(** Whatever the setting, an invocation raises only what its tool
    raised. *)
Lemma run_one_raises e :
  (_run_one self call config).2 = Raise e →
  not_ (handle_tool_errors self) = true
  ∧ ∃ t, dict_get (tools_by_name self) (tc_name call) = Some t
         ∧ invoke t (tool_call_input call) config = Raise e.
Proof.
  destruct (dict_get (tools_by_name self) (tc_name call)) as [t|] eqn:Hget.
  - destruct (invoke t (tool_call_input call) config) as [out|e'] eqn:Hinv.
    + by rewrite (run_one_returns t out).
    + destruct (not_ (handle_tool_errors self)) eqn:Hh.
      * rewrite (run_one_propagates t e') by done. intros [= ->]. eauto.
      * by rewrite (run_one_isolates t e').
  - by rewrite run_one_unknown.
Qed.

Lemma arun_one_raises e :
  (_arun_one self call config).2 = Raise e →
  not_ (handle_tool_errors self) = true
  ∧ ∃ t, dict_get (tools_by_name self) (tc_name call) = Some t
         ∧ ainvoke t (tool_call_input call) config = Raise e.
Proof.
  destruct (dict_get (tools_by_name self) (tc_name call)) as [t|] eqn:Hget.
  - destruct (ainvoke t (tool_call_input call) config) as [out|e'] eqn:Hinv.
    + by rewrite (arun_one_returns t out).
    + destruct (not_ (handle_tool_errors self)) eqn:Hh.
      * rewrite (arun_one_propagates t e') by done. intros [= ->]. eauto.
      * by rewrite (arun_one_isolates t e').
  - by rewrite arun_one_unknown, run_one_unknown.
Qed.
End one_invocation.

(** ** Parsing the trigger *)

Lemma parse_input_well_formed input message :
  well_formed input message →
  _parse_input input = Ok (message, shape_of input).
Proof.
  destruct input as [l|d]; simpl.
  - intros Hlast. unfold _parse_input, list_last. by rewrite Hlast.
  - intros (l & Hd & Hlast). unfold _parse_input, get_messages.
    rewrite Hd. simpl. destruct l as [|m l]; [done|].
    rewrite bool_decide_eq_false_2 by done. simpl.
    unfold list_last. by rewrite Hlast.
Qed.

Lemma parse_input_Ok input message output_type :
  _parse_input input = Ok (message, output_type) →
  well_formed input message ∧ output_type = shape_of input.
Proof.
  destruct input as [l|d]; unfold _parse_input, get_messages, list_last;
    simpl.
  - destruct (last l) as [[]|]; simpl; try done. by intros [= -> <-].
  - destruct (d !! "messages") as [[|b|z|s|l]|] eqn:Hd; simpl; try done.
    + by destruct b.
    + by destruct (negb (z =? 0)%Z).
    + by destruct (String.eqb s "").
    + case_bool_decide; simpl; [done|]. unfold list_last.
      destruct (last l) as [[]|] eqn:Hlast; simpl; try done.
      intros [= -> <-]. eauto.
Qed.

Lemma parse_input_malformed input :
  (∀ message, ¬ well_formed input message) →
  ∃ e, _parse_input input = Raise e.
Proof.
  intros Hwf. destruct (_parse_input input) as [[message ot]|e] eqn:Hp.
  - apply parse_input_Ok in Hp as [Hm _]. by destruct (Hwf message).
  - eauto.
Qed.

(** ** The batch *)

Lemma func_parsed get_config_list self input config message :
  well_formed input message →
  _func get_config_list self input config =
    let futures :=
      zip_with (_run_one self) (tool_calls message)
        (get_config_list config (length (tool_calls message))) in
    (concat futures.*1, rmap (assemble (shape_of input)) (sequence futures.*2)).
Proof.
  intros Hwf. unfold _func. rewrite (parse_input_well_formed _ _ Hwf).
  simpl. unfold executor_map.
  destruct (sequence _) as [outs|e]; simpl; [|done].
  by rewrite app_nil_r.
Qed.

Lemma afunc_parsed schedule self input config message :
  well_formed input message →
  _afunc schedule self input config =
    let tasks :=
      map (λ call, _arun_one self call config) (tool_calls message) in
    (concat tasks.*1,
     rmap (assemble (shape_of input))
       match first_raised schedule tasks.*2 with
       | Some e => Raise e
       | None => sequence tasks.*2
       end).
Proof.
  intros Hwf. unfold _afunc. rewrite (parse_input_well_formed _ _ Hwf).
  simpl. unfold gather.
  destruct (first_raised _ _) as [e|]; simpl; [done|].
  destruct (sequence _) as [outs|e]; simpl; [|done].
  by rewrite app_nil_r.
Qed.

(** With interception on, a batch of [K] calls ends in [K] records, one
    per call and in the order of the calls, each of the kind of its
    call. *)
Lemma batch_records self calls configs :
  not_ (handle_tool_errors self) = false →
  length configs = length calls →
  ∃ outputs,
    sequence (zip_with (λ call c, (_run_one self call c).2) calls configs)
      = Ok outputs
    ∧ Forall2 (λ cc ko, is_record invoke self cc.1 cc.2 ko.1 ko.2)
        (zip calls configs)
        (zip (zip_with (outcome invoke self) calls configs) outputs)
    ∧ length outputs = length calls.
Proof.
  intros Hh. revert configs.
  induction calls as [|call calls IH]; intros [|c configs] Hlen;
    simplify_eq/=.
  - exists []. by repeat split.
  - destruct (IH configs) as (outputs & Hseq & Hall & Hlen'); [lia|].
    destruct (run_one_record self call c Hh) as (out & Hout & Hrec).
    exists (out :: outputs). rewrite Hout, Hseq. simpl.
    split_and!; [done| |lia]. by constructor.
Qed.

Lemma abatch_records self calls config :
  not_ (handle_tool_errors self) = false →
  ∃ outputs,
    (map (λ call, _arun_one self call config) calls).*2 = Ok <$> outputs
    ∧ Forall2 (λ call ko, is_record ainvoke self call config ko.1 ko.2)
        calls
        (zip (map (λ call, outcome ainvoke self call config) calls) outputs)
    ∧ length outputs = length calls.
Proof.
  intros Hh. induction calls as [|call calls IH]; csimpl.
  - exists []. by repeat split.
  - destruct IH as (outputs & Hseq & Hall & Hlen').
    destruct (arun_one_record self call config Hh) as (out & Hout & Hrec).
    exists (out :: outputs). rewrite Hout, Hseq. csimpl.
    split_and!; [done| |lia]. by constructor.
Qed.

Lemma first_raised_all_Ok {A} schedule (xs : list A) :
  first_raised schedule (Ok <$> xs) = None.
Proof.
  destruct (first_raised _ _) as [e|] eqn:Hf; [|done].
  apply first_raised_Some in Hf as [i Hi].
  rewrite list_lookup_fmap in Hi. by destruct (xs !! i).
Qed.

Lemma assemble_inj output_type outputs outputs' :
  assemble output_type outputs = assemble output_type outputs' →
  outputs = outputs'.
Proof.
  destruct output_type; simpl; [by intros [= ->]|].
  intros Heq.
  apply (f_equal (λ o, match o with
                       | OutDict d => d !! "messages"
                       | OutList _ => None
                       end)) in Heq.
  rewrite !lookup_singleton_eq in Heq. congruence.
Qed.

Lemma rmap_assemble_Ok output_type r outputs :
  rmap (assemble output_type) r = Ok (assemble output_type outputs) ↔
  r = Ok outputs.
Proof.
  destruct r as [outs|e]; simpl; split; try done.
  - intros [= Heq]. by apply assemble_inj in Heq as ->.
  - by intros [= ->].
Qed.

Lemma rmap_Raise {A B} (f : A → B) r e :
  rmap f r = Raise e ↔ r = Raise e.
Proof. destruct r; simpl; split; congruence. Qed.

Lemma rmap_Ok_inv {A B} (f : A → B) r b :
  rmap f r = Ok b → ∃ a, r = Ok a ∧ b = f a.
Proof. destruct r as [a|e]; simpl; [|done]. intros [= <-]. eauto. Qed.

Section batch_facts.
Context (get_config_list : RunnableConfig → nat → list RunnableConfig).
Context (self : ToolNode) (input : Input) (config : RunnableConfig).
Context (message : AIMessageData).
Hypothesis Hwf : well_formed input message.

Local Abbreviation calls := (tool_calls message).
Local Abbreviation configs := (get_config_list config (length calls)).

(** What the blocking path returns is, position by position, what
    [_run_one] returns for the call at that position. *)
Lemma func_outputs_pointwise outputs :
  (_func get_config_list self input config).2
    = Ok (assemble (shape_of input) outputs) →
  zip_with (λ call c, (_run_one self call c).2) calls configs
    = Ok <$> outputs.
Proof using Hwf.
  rewrite (func_parsed _ _ _ _ message Hwf). simpl.
  rewrite zip_with_snd, rmap_assemble_Ok. by intros ?%sequence_Ok.
Qed.

Lemma func_Ok_inv output :
  (_func get_config_list self input config).2 = Ok output →
  ∃ outputs, output = assemble (shape_of input) outputs.
Proof using Hwf.
  rewrite (func_parsed _ _ _ _ message Hwf). simpl.
  intros (outputs & _ & ->)%rmap_Ok_inv. eauto.
Qed.

(** What it raises was raised by the tool of one of the calls, with
    interception off, and every call before that one returned. *)
Lemma func_raise_origin e :
  (_func get_config_list self input config).2 = Raise e →
  not_ (handle_tool_errors self) = true
  ∧ ∃ j call c t,
      calls !! j = Some call ∧ configs !! j = Some c
      ∧ dict_get (tools_by_name self) (tc_name call) = Some t
      ∧ invoke t (tool_call_input call) c = Raise e.
Proof using Hwf.
  rewrite (func_parsed _ _ _ _ message Hwf). simpl.
  rewrite zip_with_snd, rmap_Raise.
  intros (j & Hj & _)%sequence_Raise.
  apply lookup_zip_with_Some in Hj as (call & c & Hr & Hcall & Hc).
  symmetry in Hr. apply run_one_raises in Hr as (Hh & t & Hget & Hinv).
  split; [done|]. by exists j, call, c, t.
Qed.

Lemma func_member_raises j call c t e :
  length configs = length calls →
  not_ (handle_tool_errors self) = true →
  calls !! j = Some call → configs !! j = Some c →
  dict_get (tools_by_name self) (tc_name call) = Some t →
  invoke t (tool_call_input call) c = Raise e →
  ∃ e', (_func get_config_list self input config).2 = Raise e'.
Proof using Hwf.
  intros Hlen Hh Hcall Hc Hget Hinv.
  rewrite (func_parsed _ _ _ _ message Hwf). simpl. rewrite zip_with_snd.
  destruct (sequence_member_raises
    (zip_with (λ call c, (_run_one self call c).2) calls configs) j e)
    as [e' He'].
  { apply lookup_zip_with_Some. exists call, c.
    by rewrite (run_one_propagates self call c t e). }
  exists e'. by rewrite He'.
Qed.

Lemma afunc_outputs_pointwise schedule outputs :
  (_afunc schedule self input config).2
    = Ok (assemble (shape_of input) outputs) →
  map (λ call, (_arun_one self call config).2) calls = Ok <$> outputs.
Proof using Hwf.
  rewrite (afunc_parsed _ _ _ _ message Hwf). simpl.
  rewrite rmap_assemble_Ok, <-list_fmap_compose.
  destruct (first_raised _ _); [done|]. by intros ?%sequence_Ok.
Qed.

Lemma afunc_raise_origin schedule e :
  (_afunc schedule self input config).2 = Raise e →
  not_ (handle_tool_errors self) = true
  ∧ ∃ j call t,
      calls !! j = Some call
      ∧ dict_get (tools_by_name self) (tc_name call) = Some t
      ∧ ainvoke t (tool_call_input call) config = Raise e.
Proof using Hwf.
  rewrite (afunc_parsed _ _ _ _ message Hwf). simpl.
  rewrite rmap_Raise, <-list_fmap_compose.
  intros Hr.
  assert (∃ j, ((λ call, (_arun_one self call config).2) <$> calls) !! j
               = Some (Raise e)) as [j Hj].
  { destruct (first_raised _ _) as [e'|] eqn:Hf.
    - simplify_eq. by apply first_raised_Some in Hf.
    - apply sequence_Raise in Hr as (j & Hj & _). eauto. }
  rewrite list_lookup_fmap in Hj.
  destruct (calls !! j) as [call|] eqn:Hcall; [|done].
  injection Hj as Hj. apply arun_one_raises in Hj as (Hh & t & Hget & Hinv).
  split; [done|]. by exists j, call, t.
Qed.

Lemma afunc_member_raises schedule j call t e :
  not_ (handle_tool_errors self) = true →
  calls !! j = Some call →
  dict_get (tools_by_name self) (tc_name call) = Some t →
  ainvoke t (tool_call_input call) config = Raise e →
  ∃ e', (_afunc schedule self input config).2 = Raise e'.
Proof using Hwf.
  intros Hh Hcall Hget Hinv.
  rewrite (afunc_parsed _ _ _ _ message Hwf). simpl.
  rewrite <-list_fmap_compose.
  destruct (first_raised _ _) as [e'|]; [by exists e'|].
  destruct (sequence_member_raises
    ((λ call, (_arun_one self call config).2) <$> calls) j e) as [e' He'].
  { rewrite list_lookup_fmap, Hcall. simpl.
    by rewrite (arun_one_propagates self call config t e). }
  exists e'. unfold compose. by rewrite He'.
Qed.
End batch_facts.

Lemma func_returns_when_handled get_config_list self input config message :
  (∀ c n, length (get_config_list c n) = n) →
  well_formed input message →
  not_ (handle_tool_errors self) = false →
  ∃ outputs,
    (_func get_config_list self input config).2
      = Ok (assemble (shape_of input) outputs).
Proof.
  intros Hgcl Hwf Hh.
  destruct (batch_records self (tool_calls message)
    (get_config_list config (length (tool_calls message))) Hh)
    as (outputs & Hseq & _); [apply Hgcl|].
  exists outputs. rewrite (func_parsed _ _ _ _ message Hwf). simpl.
  by rewrite zip_with_snd, Hseq.
Qed.

Lemma afunc_returns_when_handled schedule self input config message :
  well_formed input message →
  not_ (handle_tool_errors self) = false →
  ∃ outputs,
    (_afunc schedule self input config).2
      = Ok (assemble (shape_of input) outputs).
Proof.
  intros Hwf Hh.
  destruct (abatch_records self (tool_calls message) config Hh)
    as (outputs & Hseq & _).
  exists outputs. rewrite (afunc_parsed _ _ _ _ message Hwf). simpl.
  by rewrite Hseq, first_raised_all_Ok, sequence_fmap_Ok.
Qed.

Lemma not_handle_true h : not_ h = true ↔ h ≠ Some true.
Proof. destruct h as [[]|]; simpl; split; congruence. Qed.

Lemma not_handle_false h : not_ h = false ↔ h = Some true.
Proof. destruct h as [[]|]; simpl; split; congruence. Qed.

(** The batch around an invocation of an unknown tool. *)
Lemma unknown_action_in_batch get_config_list self input config message i call :
  (∀ c n, length (get_config_list c n) = n) →
  well_formed input message →
  tool_calls message !! i = Some call →
  dict_contains (tools_by_name self) (tc_name call) = false →
  let calls := tool_calls message in
  let configs := get_config_list config (length calls) in
  let record :=
    mkToolMessage
      ("Error: " +:+ tc_name call +:+ " is not a valid tool, try one of ["
         +:+ join ", " (dict_keys (tools_by_name self)) +:+ "].")
      (tc_name call) (tc_id call) in
  (∀ c, _run_one self call c = ([], Ok record)
        ∧ _arun_one self call c = ([], Ok record))
  ∧ (∀ outputs,
       (_func get_config_list self input config).2
         = Ok (assemble (shape_of input) outputs) →
       length outputs = length calls
       ∧ outputs !! i = Some record
       ∧ ∀ j call_j c_j,
           calls !! j = Some call_j → configs !! j = Some c_j →
           ∃ out, outputs !! j = Some out
                  ∧ (_run_one self call_j c_j).2 = Ok out)
  ∧ (∀ e,
       (_func get_config_list self input config).2 = Raise e →
       ∃ j call_j c_j t,
         j ≠ i ∧ calls !! j = Some call_j ∧ configs !! j = Some c_j
         ∧ dict_get (tools_by_name self) (tc_name call_j) = Some t
         ∧ invoke t (tool_call_input call_j) c_j = Raise e)
  ∧ (handle_tool_errors self = Some true →
     ∃ outputs,
       (_func get_config_list self input config).2
         = Ok (assemble (shape_of input) outputs)).
Proof.
  intros Hgcl Hwf Hcall Hunknown calls configs record.
  apply dict_get_None in Hunknown.
  assert (∀ c, _run_one self call c = ([], Ok record)) as Hrun.
  { intros c. by rewrite run_one_unknown. }
  split_and!.
  - intros c. split; [done|]. by rewrite arun_one_unknown.
  - intros outputs Hout.
    apply (func_outputs_pointwise _ _ _ _ message Hwf) in Hout.
    fold calls configs in Hout.
    assert (length outputs = length calls) as Hlen.
    { apply (f_equal length) in Hout.
      rewrite length_zip_with, length_fmap in Hout.
      unfold configs in Hout. rewrite Hgcl in Hout. lia. }
    assert (∀ j call_j c_j,
      calls !! j = Some call_j → configs !! j = Some c_j →
      ∃ out, outputs !! j = Some out
             ∧ (_run_one self call_j c_j).2 = Ok out) as Hpoint.
    { intros j call_j c_j Hj Hc.
      assert (zip_with (λ call c, (_run_one self call c).2) calls configs
                !! j = Some (_run_one self call_j c_j).2) as Hz.
      { apply lookup_zip_with_Some. by exists call_j, c_j. }
      rewrite Hout, list_lookup_fmap in Hz.
      destruct (outputs !! j) as [out|]; [|done].
      exists out. split; [done|]. by injection Hz as <-. }
    split_and!; [done| |done].
    destruct (lookup_lt_is_Some_2 configs i) as [c_i Hc].
    { unfold configs. rewrite Hgcl. by eapply lookup_lt_Some. }
    destruct (Hpoint i call c_i Hcall Hc) as (out & Hi & Hrec).
    rewrite Hrun in Hrec. injection Hrec as <-. done.
  - intros e He.
    apply (func_raise_origin _ _ _ _ message Hwf) in He
      as (_ & j & call_j & c_j & t & Hj & Hc & Hget & Hinv).
    exists j, call_j, c_j, t. split_and!; try done.
    intros Hji. subst j. unfold calls in *. simplify_eq.
  - intros Hh. eapply func_returns_when_handled; [done..|].
    by apply not_handle_false.
Qed.

(** ** The claims *)

(** C1.  With error interception enabled, a trigger whose message carries
    [K] invocations, [U] of them naming a tool that is not in the catalog
    and [F] of the others raising, is answered with exactly [K] records in
    the order of the invocations: record [i] is the record of invocation
    [i], [U] of the records are unknown-action records, [F] are
    execution-failure records and [K - U - F] are success records.  The
    blocking path and, under every completion order, the asynchronous path
    both do so. *)
Theorem dispatch_records_by_kind get_config_list self input config message :
  (∀ c n, length (get_config_list c n) = n) →
  handle_tool_errors self = Some true →
  well_formed input message →
  let calls := tool_calls message in
  let K := length calls in
  let configs := get_config_list config K in
  (∀ U F,
     count rejected_unknown_action
       (zip_with (outcome invoke self) calls configs) = U →
     count failed_isolated
       (zip_with (outcome invoke self) calls configs) = F →
     ∃ labelled : list (Outcome * ToolMessage),
       (_func get_config_list self input config).2
         = Ok (assemble (shape_of input) labelled.*2)
       ∧ length labelled = K
       ∧ Forall2 (λ cc ko, is_record invoke self cc.1 cc.2 ko.1 ko.2)
           (zip calls configs) labelled
       ∧ count rejected_unknown_action labelled.*1 = U
       ∧ count failed_isolated labelled.*1 = F
       ∧ count succeeded labelled.*1 = K - U - F)
  ∧ (∀ schedule U F,
     count rejected_unknown_action
       (map (λ call, outcome ainvoke self call config) calls) = U →
     count failed_isolated
       (map (λ call, outcome ainvoke self call config) calls) = F →
     ∃ labelled : list (Outcome * ToolMessage),
       (_afunc schedule self input config).2
         = Ok (assemble (shape_of input) labelled.*2)
       ∧ length labelled = K
       ∧ Forall2 (λ call ko, is_record ainvoke self call config ko.1 ko.2)
           calls labelled
       ∧ count rejected_unknown_action labelled.*1 = U
       ∧ count failed_isolated labelled.*1 = F
       ∧ count succeeded labelled.*1 = K - U - F).
Proof.
  intros Hgcl Hh Hwf calls K configs.
  assert (not_ (handle_tool_errors self) = false) as Hnot by by rewrite Hh.
  split.
  - intros U F HU HF.
    destruct (batch_records self calls configs Hnot) as (outs & Hseq & Hall & Hlen).
    { apply Hgcl. }
    set (outcomes := zip_with (outcome invoke self) calls configs) in *.
    assert (length outcomes = K) as Hlo.
    { unfold outcomes, configs. rewrite length_zip_with, Hgcl. lia. }
    exists (zip outcomes outs).
    rewrite fst_zip, snd_zip by lia.
    split_and!; [|rewrite length_zip; lia|done..|].
    + rewrite (func_parsed _ _ _ _ message Hwf). simpl.
      rewrite zip_with_snd. fold calls K configs. by rewrite Hseq.
    + pose proof (count_total outcomes). lia.
  - intros schedule U F HU HF.
    destruct (abatch_records self calls config Hnot) as (outs & Hseq & Hall & Hlen).
    set (outcomes := map (λ call, outcome ainvoke self call config) calls) in *.
    assert (length outcomes = K) as Hlo.
    { unfold outcomes. by rewrite length_map. }
    exists (zip outcomes outs).
    rewrite fst_zip, snd_zip by lia.
    split_and!; [|rewrite length_zip; lia|done..|].
    + rewrite (afunc_parsed _ _ _ _ message Hwf). simpl. fold calls.
      by rewrite Hseq, first_raised_all_Ok, sequence_fmap_Ok.
    + pose proof (count_total outcomes). lia.
Qed.

Lemma dispatch_records_by_kind_witness :
  ∃ labelled : list (Outcome * ToolMessage),
    (_func Scenario.get_config_list Scenario.node Scenario.list_input
       Scenario.config).2 = Ok (OutList labelled.*2)
    ∧ length labelled = 3
    ∧ Forall2
        (λ cc ko, is_record invoke Scenario.node cc.1 cc.2 ko.1 ko.2)
        (zip Scenario.calls (replicate 3 Scenario.config)) labelled
    ∧ count rejected_unknown_action labelled.*1 = 1
    ∧ count failed_isolated labelled.*1 = 1
    ∧ count succeeded labelled.*1 = 1.
Proof.
  refine (proj1 (dispatch_records_by_kind Scenario.get_config_list
    Scenario.node Scenario.list_input Scenario.config Scenario.ai_message
    _ _ _) 1 1 _ _).
  - intros c n. apply length_replicate.
  - reflexivity.
  - reflexivity.
  - reflexivity.
  - reflexivity.
Defined.

(** C2 (as amended).  When the tool an invocation resolves to raises and
    error interception is enabled, [_run_one] and [_arun_one] return a
    record instead of raising: its content is ["Error: "], the failure's
    [repr], a line feed and [" Please fix your mistakes."] (with a space
    after the line feed), and its name and call id are those of the
    invocation. *)
Theorem execution_failure_is_isolated self call config t e :
  handle_tool_errors self = Some true →
  dict_get (tools_by_name self) (tc_name call) = Some t →
  let record :=
    mkToolMessage
      ("Error: " +:+ repr e +:+ LF +:+ " Please fix your mistakes.")
      (tc_name call) (tc_id call) in
  (invoke t (tool_call_input call) config = Raise e →
   (_run_one self call config).2 = Ok record)
  ∧ (ainvoke t (tool_call_input call) config = Raise e →
     (_arun_one self call config).2 = Ok record).
Proof.
  intros Hh Hget record.
  assert (not_ (handle_tool_errors self) = false) as Hnot by by rewrite Hh.
  split; intros Hinv.
  - by rewrite (run_one_isolates self call config t e).
  - by rewrite (arun_one_isolates self call config t e).
Qed.

Lemma execution_failure_is_isolated_witness :
  (_run_one Scenario.node Scenario.call_divide Scenario.config).2
    = Ok (mkToolMessage
            ("Error: ZeroDivisionError('division by zero')" +:+ LF
               +:+ " Please fix your mistakes.")
            "divide" "call-3").
Proof.
  refine (proj1 (execution_failure_is_isolated Scenario.node
    Scenario.call_divide Scenario.config Scenario.divide
    (mkException "ZeroDivisionError" "ZeroDivisionError('division by zero')")
    _ _) _); reflexivity.
Defined.

(** C2 as stated fails: the content the code produces is not the
    template of the specification, which has no space after the line
    feed. *)
Lemma execution_failure_content_differs :
  ∃ t e out,
    dict_get (tools_by_name Scenario.node) (tc_name Scenario.call_divide)
      = Some t
    ∧ invoke t (tool_call_input Scenario.call_divide) Scenario.config
      = Raise e
    ∧ (_run_one Scenario.node Scenario.call_divide Scenario.config).2
      = Ok out
    ∧ content out ≠ spec_TOOL_CALL_ERROR_TEMPLATE (repr e).
Proof.
  exists Scenario.divide. eexists. eexists.
  split_and!; [reflexivity..|]. vm_compute. discriminate.
Qed.

(** C3.  An invocation whose name is not in the catalog executes no tool
    and is answered with the record whose content is the requested name
    and the comma-joined valid names in the unknown-action template.  The
    other invocations of the trigger are processed as they would be
    alone: whenever the batch returns, the record of each is the one
    [_run_one] gives for it, and when the batch raises, a tool of another
    invocation raised.  In particular, three invocations with one
    requesting ["weather"] from a catalog holding only ["search"] are
    answered with three records, and the content of that one is
    ["Error: weather is not a valid tool, try one of [search]."]. *)
Theorem unknown_action_is_rejected :
  (∀ get_config_list self input config message i call,
     (∀ c n, length (get_config_list c n) = n) →
     well_formed input message →
     tool_calls message !! i = Some call →
     dict_contains (tools_by_name self) (tc_name call) = false →
     let calls := tool_calls message in
     let configs := get_config_list config (length calls) in
     let record :=
       mkToolMessage
         ("Error: " +:+ tc_name call +:+ " is not a valid tool, try one of ["
            +:+ join ", " (dict_keys (tools_by_name self)) +:+ "].")
         (tc_name call) (tc_id call) in
     (∀ c, _run_one self call c = ([], Ok record)
           ∧ _arun_one self call c = ([], Ok record))
     ∧ (∀ outputs,
          (_func get_config_list self input config).2
            = Ok (assemble (shape_of input) outputs) →
          length outputs = length calls
          ∧ outputs !! i = Some record
          ∧ ∀ j call_j c_j,
              calls !! j = Some call_j → configs !! j = Some c_j →
              ∃ out, outputs !! j = Some out
                     ∧ (_run_one self call_j c_j).2 = Ok out)
     ∧ (∀ e,
          (_func get_config_list self input config).2 = Raise e →
          ∃ j call_j c_j t,
            j ≠ i ∧ calls !! j = Some call_j ∧ configs !! j = Some c_j
            ∧ dict_get (tools_by_name self) (tc_name call_j) = Some t
            ∧ invoke t (tool_call_input call_j) c_j = Raise e)
     ∧ (handle_tool_errors self = Some true →
        ∃ outputs,
          (_func get_config_list self input config).2
            = Ok (assemble (shape_of input) outputs)))
  ∧ (∀ get_config_list search input config message i call,
       (∀ c n, length (get_config_list c n) = n) →
       name search = "search" →
       well_formed input message →
       length (tool_calls message) = 3 →
       tool_calls message !! i = Some call →
       tc_name call = "weather" →
       ∃ outputs,
         (_func get_config_list (ToolNode_init [inl search] (Some true))
            input config).2 = Ok (assemble (shape_of input) outputs)
         ∧ length outputs = 3
         ∧ content <$> outputs !! i
           = Some "Error: weather is not a valid tool, try one of [search].").
Proof.
  split; [apply unknown_action_in_batch|].
  intros gcl search input config message i call Hgcl Hname Hwf Hlen Hcall
    Hweather.
  set (self := ToolNode_init [inl search] (Some true)).
  assert (tools_by_name self = [("search", search)]) as Htools.
  { unfold self, ToolNode_init. simpl. by rewrite Hname. }
  assert (dict_contains (tools_by_name self) (tc_name call) = false) as Hun.
  { rewrite Htools, Hweather. reflexivity. }
  destruct (unknown_action_in_batch gcl self input config message i call
    Hgcl Hwf Hcall Hun) as (_ & Hbatch & _ & Hret).
  destruct Hret as [outputs Hout]; [done|].
  exists outputs. split; [done|].
  destruct (Hbatch outputs Hout) as (Hlen' & Hi & _).
  split; [congruence|]. rewrite Hi. cbn [fmap option_fmap option_map content].
  by rewrite Htools, Hweather.
Qed.

Lemma unknown_action_is_rejected_witness :
  ∃ outputs,
    (_func Scenario.get_config_list (ToolNode_init [inl Scenario.search] (Some true))
       Scenario.list_input Scenario.config).2 = Ok (OutList outputs)
    ∧ length outputs = 3
    ∧ content <$> outputs !! 1
      = Some "Error: weather is not a valid tool, try one of [search].".
Proof.
  refine (proj2 unknown_action_is_rejected Scenario.get_config_list
    Scenario.search Scenario.list_input Scenario.config Scenario.ai_message
    1 Scenario.call_weather _ _ _ _ _ _); try reflexivity.
  intros c n. apply length_replicate.
Defined.

(** C4.  With error interception disabled, a trigger with at least one
    invocation whose tool raises makes the whole dispatch raise: the
    result is an exception raised by the tool of one of the invocations,
    and no output, hence no record, is returned.  This holds for the
    blocking path and, under every completion order, for the asynchronous
    path. *)
Theorem unhandled_failure_aborts get_config_list self input config message :
  (∀ c n, length (get_config_list c n) = n) →
  handle_tool_errors self ≠ Some true →
  well_formed input message →
  let calls := tool_calls message in
  let configs := get_config_list config (length calls) in
  ((∃ j call c t e,
      calls !! j = Some call ∧ configs !! j = Some c
      ∧ dict_get (tools_by_name self) (tc_name call) = Some t
      ∧ invoke t (tool_call_input call) c = Raise e) →
   ∃ e,
     (_func get_config_list self input config).2 = Raise e
     ∧ (∀ output, (_func get_config_list self input config).2 ≠ Ok output)
     ∧ ∃ j call c t,
         calls !! j = Some call ∧ configs !! j = Some c
         ∧ dict_get (tools_by_name self) (tc_name call) = Some t
         ∧ invoke t (tool_call_input call) c = Raise e)
  ∧ ((∃ j call t e,
        calls !! j = Some call
        ∧ dict_get (tools_by_name self) (tc_name call) = Some t
        ∧ ainvoke t (tool_call_input call) config = Raise e) →
     ∀ schedule, ∃ e,
       (_afunc schedule self input config).2 = Raise e
       ∧ (∀ output, (_afunc schedule self input config).2 ≠ Ok output)
       ∧ ∃ j call t,
           calls !! j = Some call
           ∧ dict_get (tools_by_name self) (tc_name call) = Some t
           ∧ ainvoke t (tool_call_input call) config = Raise e).
Proof.
  intros Hgcl Hh%not_handle_true Hwf calls configs. split.
  - intros (j & call & c & t & e & Hcall & Hc & Hget & Hinv).
    destruct (func_member_raises get_config_list self input config message
      Hwf j call c t e) as [e' He']; try done.
    exists e'. split_and!; [done|congruence|].
    by apply (func_raise_origin _ _ _ _ message Hwf) in He' as [_ ?].
  - intros (j & call & t & e & Hcall & Hget & Hinv) schedule.
    destruct (afunc_member_raises self input config message Hwf schedule
      j call t e) as [e' He']; try done.
    exists e'. split_and!; [done|congruence|].
    by apply (afunc_raise_origin _ _ _ message Hwf) in He' as [_ ?].
Qed.

Lemma unhandled_failure_aborts_witness :
  ∃ e,
    (_func Scenario.get_config_list Scenario.strict_node Scenario.list_input
       Scenario.config).2 = Raise e
    ∧ (∀ output,
         (_func Scenario.get_config_list Scenario.strict_node
            Scenario.list_input Scenario.config).2 ≠ Ok output)
    ∧ ∃ j call c t,
        Scenario.calls !! j = Some call
        ∧ replicate 3 Scenario.config !! j = Some c
        ∧ dict_get (tools_by_name Scenario.strict_node) (tc_name call)
          = Some t
        ∧ invoke t (tool_call_input call) c = Raise e.
Proof.
  refine (proj1 (unhandled_failure_aborts Scenario.get_config_list
    Scenario.strict_node Scenario.list_input Scenario.config
    Scenario.ai_message _ _ _) _).
  - intros c n. apply length_replicate.
  - discriminate.
  - reflexivity.
  - exists 2, Scenario.call_divide, Scenario.config, Scenario.divide.
    eexists. split_and!; reflexivity.
Defined.

(** C5.  For a well-formed trigger the output has the shape of the input:
    a list of messages is answered with the bare list of records, one per
    invocation, and a dictionary with the messages under ["messages"] is
    answered with a dictionary holding the records under ["messages"].
    The dispatch returns such an output unless a tool failure propagates,
    which needs error interception to be off. *)
Theorem output_shape_mirrors_input get_config_list self input config message :
  (∀ c n, length (get_config_list c n) = n) →
  well_formed input message →
  let mirrors (output : Output) : Prop :=
    ∃ outputs,
      length outputs = length (tool_calls message)
      ∧ match input with
        | InList _ => output = OutList outputs
        | InDict _ => output = OutDict {[ "messages" := outputs ]}
        end in
  ((∃ output,
      (_func get_config_list self input config).2 = Ok output
      ∧ mirrors output)
   ∨ (handle_tool_errors self ≠ Some true
      ∧ ∃ e j call c t,
          (_func get_config_list self input config).2 = Raise e
          ∧ tool_calls message !! j = Some call
          ∧ get_config_list config (length (tool_calls message)) !! j
            = Some c
          ∧ dict_get (tools_by_name self) (tc_name call) = Some t
          ∧ invoke t (tool_call_input call) c = Raise e))
  ∧ (∀ schedule,
       (∃ output,
          (_afunc schedule self input config).2 = Ok output
          ∧ mirrors output)
       ∨ (handle_tool_errors self ≠ Some true
          ∧ ∃ e j call t,
              (_afunc schedule self input config).2 = Raise e
              ∧ tool_calls message !! j = Some call
              ∧ dict_get (tools_by_name self) (tc_name call) = Some t
              ∧ ainvoke t (tool_call_input call) config = Raise e)).
Proof.
  intros Hgcl Hwf mirrors.
  assert (∀ outputs,
    length outputs = length (tool_calls message) →
    mirrors (assemble (shape_of input) outputs)) as Hmirrors.
  { intros outputs Hlen. exists outputs. split; [done|].
    by destruct input. }
  split.
  - destruct (_func get_config_list self input config).2
      as [output|e] eqn:Hres.
    + left. exists output. split; [done|].
      destruct (func_Ok_inv _ _ _ _ message Hwf output Hres)
        as [outputs ->].
      apply Hmirrors.
      apply (func_outputs_pointwise _ _ _ _ message Hwf) in Hres.
      apply (f_equal length) in Hres.
      rewrite length_zip_with, length_fmap, Hgcl in Hres. lia.
    + right.
      apply (func_raise_origin _ _ _ _ message Hwf) in Hres
        as (Hh%not_handle_true & j & call & c & t & ?).
      split; [done|]. by exists e, j, call, c, t.
  - intros schedule.
    destruct (_afunc schedule self input config).2 as [output|e] eqn:Hres.
    + left. exists output. split; [done|].
      assert (∃ outputs, output = assemble (shape_of input) outputs)
        as [outputs ->].
      { rewrite (afunc_parsed _ _ _ _ message Hwf) in Hres.
        apply rmap_Ok_inv in Hres as (outputs & _ & ->). eauto. }
      apply Hmirrors.
      apply (afunc_outputs_pointwise _ _ _ message Hwf) in Hres.
      apply (f_equal length) in Hres.
      by rewrite length_map, length_fmap in Hres.
    + right.
      apply (afunc_raise_origin _ _ _ message Hwf) in Hres
        as (Hh%not_handle_true & j & call & t & ?).
      split; [done|]. by exists e, j, call, t.
Qed.

(** C6.  An input that is neither a list whose last element is an
    [AIMessage] nor a dictionary whose ["messages"] entry is a non-empty
    list with an [AIMessage] last makes the dispatch raise at once: no
    tool is executed (the trace is empty) and no record is returned. *)
Theorem malformed_trigger_is_fatal get_config_list self input config :
  (∀ message, ¬ well_formed input message) →
  ∃ e,
    _func get_config_list self input config = ([], Raise e)
    ∧ ∀ schedule, _afunc schedule self input config = ([], Raise e).
Proof.
  intros [e He]%parse_input_malformed. exists e.
  unfold _func, _afunc. by rewrite He.
Qed.

Lemma malformed_trigger_is_fatal_witness :
  ∃ e,
    _func Scenario.get_config_list Scenario.node
      (InDict {[ "messages" := VMessages [HumanMessage "hello"] ]})
      Scenario.config = ([], Raise e)
    ∧ ∀ schedule,
        _afunc schedule Scenario.node
          (InDict {[ "messages" := VMessages [HumanMessage "hello"] ]})
          Scenario.config = ([], Raise e).
Proof.
  apply malformed_trigger_is_fatal.
  intros message (l & Hl & Hlast).
  rewrite lookup_singleton_eq in Hl. injection Hl as <-. discriminate.
Defined.

(** C9.  A well-formed trigger whose [AIMessage] has no tool calls is
    dispatched without error and without executing a tool: the output is
    the empty list, or the dictionary holding the empty list under
    ["messages"]. *)
Theorem no_tool_calls_empty_output get_config_list self input config message :
  well_formed input message →
  tool_calls message = [] →
  let empty_output :=
    match input with
    | InList _ => OutList []
    | InDict _ => OutDict {[ "messages" := [] ]}
    end in
  _func get_config_list self input config = ([], Ok empty_output)
  ∧ ∀ schedule, _afunc schedule self input config = ([], Ok empty_output).
Proof.
  intros Hwf Hcalls empty_output. split; [|intros schedule].
  - rewrite (func_parsed _ _ _ _ message Hwf), Hcalls. simpl.
    by destruct input.
  - rewrite (afunc_parsed _ _ _ _ message Hwf), Hcalls. simpl.
    pose proof (first_raised_all_Ok schedule (@nil ToolMessage)) as Hnone.
    simpl in Hnone. rewrite Hnone. by destruct input.
Qed.

Lemma no_tool_calls_empty_output_witness :
  _func Scenario.get_config_list Scenario.node
    (InList [AIMessage Scenario.ai_message_no_calls]) Scenario.config
    = ([], Ok (OutList []))
  ∧ ∀ schedule,
      _afunc schedule Scenario.node
        (InList [AIMessage Scenario.ai_message_no_calls]) Scenario.config
        = ([], Ok (OutList [])).
Proof.
  apply (no_tool_calls_empty_output Scenario.get_config_list Scenario.node
    (InList [AIMessage Scenario.ai_message_no_calls]) Scenario.config
    Scenario.ai_message_no_calls); reflexivity.
Defined.

(** C10.  [tools_condition] looks at the last message of a list state, or
    of the non-empty ["messages"] list of a dictionary state: it returns
    ["tools"] if and only if that message has a non-empty [tool_calls]
    attribute and ["__end__"] otherwise.  On an empty list, and on a
    dictionary whose ["messages"] entry is missing or empty, it raises. *)
Theorem tools_condition_routes state :
  (∀ l m,
     state = InList l
     ∨ (∃ d, state = InDict d ∧ d !! "messages" = Some (VMessages l)) →
     last l = Some m →
     (tools_condition state = Ok "tools" ↔ has_tool_calls m)
     ∧ (¬ has_tool_calls m → tools_condition state = Ok "__end__"))
  ∧ (state = InList []
     ∨ (∃ d, state = InDict d
             ∧ (d !! "messages" = None
                ∨ d !! "messages" = Some (VMessages []))) →
     ∃ e, tools_condition state = Raise e).
Proof.
  split.
  - intros l m Hstate Hlast.
    assert (tools_condition state =
      match getattr_tool_calls (OMsg m) with
      | Some calls =>
          if bool_decide (0 < length calls) then Ok "tools" else Ok "__end__"
      | None => Ok "__end__"
      end) as ->.
    { destruct Hstate as [->|(d & -> & Hd)];
        unfold tools_condition, get_messages, list_last.
      - by rewrite Hlast.
      - rewrite Hd. simpl. destruct l as [|m' l]; [done|].
        rewrite bool_decide_eq_false_2 by done. simpl.
        unfold list_last. by rewrite Hlast. }
    unfold has_tool_calls.
    destruct m as [ai| | | | |]; simpl;
      try (split; [split; [done|by intros (? & ? & ?)]|done]).
    destruct (tool_calls ai) as [|call calls] eqn:Hcalls;
      cbn [length]; case_bool_decide; try lia.
    + split; [split; [done|]|done].
      intros (ai' & [= <-] & Hne). congruence.
    + split; [split; [|done]|].
      * intros _. exists ai. split; [done|]. by rewrite Hcalls.
      * intros []. exists ai. split; [done|]. by rewrite Hcalls.
  - intros [->|(d & -> & [Hd|Hd])];
      unfold tools_condition, get_messages; [|rewrite Hd..]; simpl; eauto.
Qed.

(** ** The checkpoint store: listing *)

Lemma filter_all {A} (P : A → Prop) `{∀ x, Decision (P x)} (l : list A) :
  (∀ x, P x) → filter P l = l.
Proof.
  intros HP. induction l as [|x l IH]; [done|].
  rewrite filter_cons_True by done. by rewrite IH.
Qed.

Section listing.
Import MemorySaver.

Lemma matches_empty m : matches ∅ m.
Proof. apply map_Forall_empty. Qed.

Lemma matches_spec filter_ m :
  matches filter_ m ↔ ∀ k v, filter_ !! k = Some v → m !! k = Some v.
Proof. done. Qed.

(** Without filter, [before] and [limit], a listing scoped by a thread is
    the bucket of that thread and namespace. *)
Lemma list_scope storage thread ns :
  MemorySaver.list storage (Some (mkPrefix thread ns)) None None None
    = bucket_tuples storage thread (default "" ns).
Proof.
  unfold MemorySaver.list. simpl. rewrite app_nil_r.
  apply filter_all. intros t. split; [apply matches_empty|done].
Qed.

Lemma list_filtered storage config filter_ :
  MemorySaver.list storage config (Some filter_) None None
    = filter (λ t, matches filter_ (metadata t))
        (MemorySaver.list storage config None None None).
Proof.
  unfold MemorySaver.list. simpl.
  rewrite list_filter_filter. apply list_filter_iff.
  intros t. unfold is_before. pose proof (matches_empty (metadata t)).
  tauto.
Qed.

Lemma elem_of_bucket_tuples storage thread ns t :
  t ∈ bucket_tuples storage thread ns ↔
  ∃ i c m parent,
    default ∅ (storage !! (thread, ns)) !! i = Some (c, m, parent)
    ∧ t = mkTuple (mkAddress thread ns (Some i)) c m
            ((λ p, mkAddress thread ns (Some p)) <$> parent).
Proof.
  unfold bucket_tuples. rewrite list_elem_of_fmap. split.
  - intros ([i [[c m] parent]] & -> & Hin).
    rewrite merge_sort_Permutation in Hin.
    apply elem_of_map_to_list in Hin. by exists i, c, m, parent.
  - intros (i & c & m & parent & Hi & ->).
    exists (i, (c, m, parent)). split; [done|].
    rewrite merge_sort_Permutation. by apply elem_of_map_to_list.
Qed.

Lemma length_bucket_tuples storage thread ns :
  length (bucket_tuples storage thread ns)
    = size (default ∅ (storage !! (thread, ns))).
Proof.
  unfold bucket_tuples.
  by rewrite length_fmap, merge_sort_Permutation, length_map_to_list.
Qed.

(** The assertions of [test_search] hold of the model. *)
Example test_search :
  length (MemorySaver.list Fixture.saved None (Some Fixture.query_1) None None) = 1
  ∧ metadata <$> MemorySaver.list Fixture.saved None (Some Fixture.query_1) None None
    = [Fixture.metadata_1]
  ∧ metadata <$> MemorySaver.list Fixture.saved None (Some Fixture.query_2) None None
    = [Fixture.metadata_2]
  ∧ length (MemorySaver.list Fixture.saved None (Some Fixture.query_3) None None) = 2
  ∧ length (MemorySaver.list Fixture.saved None (Some Fixture.query_4) None None) = 0.
Proof. vm_compute. done. Qed.

(** C7.  Whatever the store holds, a listing that names a thread and no
    namespace is the listing of namespace [""] of that thread: it holds
    exactly the checkpoints stored there, one tuple each, and none of its
    tuples is in another namespace.  After the three [put]s of the test,
    listing thread-2 alone gives exactly one tuple, in namespace [""],
    and listing thread-2 with namespace ["inner"] gives exactly one
    tuple, in namespace ["inner"]. *)
Theorem list_defaults_to_root_namespace :
  (∀ (storage : Storage) (thread : string),
     let listed :=
       MemorySaver.list storage (Some (mkPrefix thread None)) None None None in
     let root := default ∅ (storage !! (thread, "")) in
     listed
       = MemorySaver.list storage (Some (mkPrefix thread (Some ""))) None None None
     ∧ (∀ t, t ∈ listed ↔
          ∃ i c m parent,
            root !! i = Some (c, m, parent)
            ∧ t = mkTuple (mkAddress thread "" (Some i)) c m
                    ((λ p, mkAddress thread "" (Some p)) <$> parent))
     ∧ length listed = size root
     ∧ Forall (λ t, thread_id (address t) = thread
                    ∧ checkpoint_ns (address t) = "") listed)
  ∧ (checkpoint_ns ∘ address)
      <$> MemorySaver.list Fixture.saved (Some (mkPrefix "thread-2" None))
            None None None = [""]
  ∧ (checkpoint_ns ∘ address)
      <$> MemorySaver.list Fixture.saved
            (Some (mkPrefix "thread-2" (Some "inner"))) None None None
      = ["inner"].
Proof.
  split_and!; [|by vm_compute..].
  intros storage thread listed root. unfold listed.
  rewrite !list_scope. simpl. split_and!.
  - done.
  - apply elem_of_bucket_tuples.
  - apply length_bucket_tuples.
  - apply Forall_forall. intros t Ht.
    apply elem_of_bucket_tuples in Ht as (i & c & m & parent & _ & ->).
    done.
Qed.

(** C8.  With no [before] and no [limit], a checkpoint in scope is listed
    under a filter if and only if every key of the filter is present in
    its metadata with an equal value, where nested mappings are compared
    by structure.  The empty filter keeps every checkpoint in scope; a
    filter with a key that the metadata lacks or binds to another value
    drops the checkpoint.  The metadata
    [{source: input, step: 2, writes: {}, score: 1}] matches
    [{source: input}] and does not match
    [{step: 1, writes: {foo: bar}}]. *)
Theorem filter_is_submapping_test :
  (∀ storage config filter_ t,
     t ∈ MemorySaver.list storage config (Some filter_) None None ↔
     t ∈ MemorySaver.list storage config None None None
     ∧ ∀ k v, filter_ !! k = Some v → metadata t !! k = Some v)
  ∧ (∀ storage config,
       MemorySaver.list storage config (Some ∅) None None
         = MemorySaver.list storage config None None None)
  ∧ (∀ storage config filter_ t k v,
       filter_ !! k = Some v → metadata t !! k ≠ Some v →
       t ∉ MemorySaver.list storage config (Some filter_) None None)
  ∧ matches Fixture.query_1 Fixture.metadata_1
  ∧ ¬ matches Fixture.query_2 Fixture.metadata_1
  ∧ matches Fixture.query_2 Fixture.metadata_2
  ∧ ¬ matches {[ "writes" := MMap {[ "foo" := MStr "baz" ]} ]}
        Fixture.metadata_2.
Proof.
  split_and!.
  - intros storage config filter_ t.
    rewrite list_filtered, list_elem_of_filter, matches_spec. tauto.
  - intros storage config. rewrite list_filtered.
    apply filter_all. intros t. apply matches_empty.
  - intros storage config filter_ t k v Hk Hne.
    rewrite list_filtered, list_elem_of_filter, matches_spec.
    intros [Hall _]. by apply Hne, Hall.
  - by apply (bool_decide_unpack _); vm_compute.
  - by apply (bool_decide_unpack _); vm_compute.
  - by apply (bool_decide_unpack _); vm_compute.
  - by apply (bool_decide_unpack _); vm_compute.
Qed.
End listing.

Lemma output_shape_mirrors_input_witness :
  ∃ outputs,
    (_func Scenario.get_config_list Scenario.node Scenario.dict_input
       Scenario.config).2 = Ok (OutDict {[ "messages" := outputs ]})
    ∧ length outputs = 3.
Proof.
  destruct (proj1 (output_shape_mirrors_input Scenario.get_config_list
    Scenario.node Scenario.dict_input Scenario.config Scenario.ai_message
    (λ c n, length_replicate n c)
    (ex_intro _ _ (conj (lookup_singleton_eq _ _) eq_refl))))
    as [(output & Hres & outputs & Hlen & ->)|[Hh _]].
  - by exists outputs.
  - by destruct Hh.
Defined.

Lemma tools_condition_routes_witness :
  tools_condition Scenario.list_input = Ok "tools".
Proof.
  apply (proj1 (tools_condition_routes Scenario.list_input)
    [HumanMessage "hello"; AIMessage Scenario.ai_message]
    (AIMessage Scenario.ai_message)).
  - by left.
  - reflexivity.
  - exists Scenario.ai_message. split; [reflexivity|discriminate].
Defined.

(** ** The catalog built by [__init__] *)

Section catalog.
Context {V : Type}.
Implicit Types (d : list (string * V)) (k : string) (v : V).

Lemma dict_get_set d k v k' :
  dict_get (dict_set d k v) k'
    = if decide (k = k') then Some v else dict_get d k'.
Proof.
  induction d as [|[k0 v0] d IH]; simpl.
  - done.
  - destruct (decide (k0 = k)) as [->|Hne]; simpl.
    + by repeat case_decide.
    + rewrite IH. by repeat case_decide; simplify_eq.
Qed.

Lemma dict_keys_set d k v :
  dict_keys (dict_set d k v)
    = if decide (k ∈ dict_keys d) then dict_keys d else dict_keys d ++ [k].
Proof.
  unfold dict_keys. induction d as [|[k0 v0] d IH].
  - done.
  - cbn [dict_set]. rewrite fmap_cons. cbn [fst].
    destruct (decide (k0 = k)) as [->|Hne].
    + rewrite decide_True by (by left). done.
    + rewrite fmap_cons, IH. cbn [fst].
      destruct (decide (k ∈ d.*1)) as [Hin|Hnin].
      * rewrite decide_True by (by right). done.
      * rewrite decide_False; [done|].
        intros [->|?]%elem_of_cons; done.
Qed.
End catalog.

Lemma init_tools_by_name tools handle :
  tools_by_name (ToolNode_init tools handle)
    = fold_left (λ d t, dict_set d (name t) t) (as_tool <$> tools) [].
Proof.
  unfold ToolNode_init. simpl. generalize (@nil (string * BaseTool)).
  induction tools as [|tool_ tools IH]; intros d; csimpl; [done|].
  by rewrite IH.
Qed.

Lemma fold_dict_get (ts : list BaseTool) d k :
  dict_get (fold_left (λ d t, dict_set d (name t) t) ts d) k
    = match last (filter (λ t, name t = k) ts) with
      | Some t => Some t
      | None => dict_get d k
      end.
Proof.
  revert d. induction ts as [|t ts IH]; intros d; simpl; [done|].
  rewrite IH, dict_get_set, filter_cons.
  destruct (decide (name t = k)) as [Hk|Hk].
  - rewrite last_cons. by destruct (last _).
  - done.
Qed.

Lemma first_occurrences_spec (names : list string) k :
  k ∈ first_occurrences names ↔ k ∈ names.
Proof.
  induction names as [|n names IH]; simpl; [done|].
  rewrite !elem_of_cons, list_elem_of_filter, IH.
  destruct (decide (k = n)); naive_solver.
Qed.

Lemma NoDup_first_occurrences (names : list string) :
  NoDup (first_occurrences names).
Proof.
  induction names as [|n names IH]; simpl; constructor.
  - rewrite list_elem_of_filter. naive_solver.
  - by apply NoDup_filter.
Qed.

Lemma fold_dict_keys (ts : list BaseTool) (d : list (string * BaseTool)) :
  dict_keys (fold_left (λ d t, dict_set d (name t) t) ts d)
    = dict_keys d
      ++ filter (λ k, k ∉ dict_keys d) (first_occurrences (name <$> ts)).
Proof.
  revert d. induction ts as [|t ts IH]; intros d; csimpl.
  - by rewrite app_nil_r.
  - rewrite IH, dict_keys_set.
    destruct (decide (name t ∈ dict_keys d)) as [Hin|Hnin].
    + rewrite filter_cons_False by naive_solver.
      rewrite list_filter_filter. f_equal. apply list_filter_iff.
      intros k. split; [|naive_solver]. intros Hk. split; [done|].
      by intros ->.
    + rewrite filter_cons_True by done.
      rewrite <-app_assoc. simpl. do 2 f_equal.
      rewrite list_filter_filter. apply list_filter_iff.
      intros k. rewrite elem_of_app, list_elem_of_singleton. naive_solver.
Qed.

(** X1.  The keys of the catalog built by [__init__], which the
    unknown-tool message lists, are the names of the registered tools,
    each once, in the order in which each name was first registered. *)
Theorem init_keys_in_order_of_first_registration tools handle :
  let keys := dict_keys (tools_by_name (ToolNode_init tools handle)) in
  keys = first_occurrences (name <$> (as_tool <$> tools))
  ∧ NoDup keys
  ∧ ∀ k, k ∈ keys ↔ ∃ tool_, tool_ ∈ tools ∧ name (as_tool tool_) = k.
Proof.
  intros keys.
  assert (keys = first_occurrences (name <$> (as_tool <$> tools))) as ->.
  { unfold keys. rewrite init_tools_by_name, fold_dict_keys. simpl.
    apply filter_all. intros k. apply not_elem_of_nil. }
  split_and!; [done|apply NoDup_first_occurrences|].
  intros k. rewrite first_occurrences_spec, <-list_fmap_compose,
    list_elem_of_fmap.
  naive_solver.
Qed.

(** X2.  When several registered tools have the same name, the catalog
    holds the one registered last under that name; a name no tool has is
    not in the catalog. *)
Theorem init_last_registered_wins tools handle k :
  dict_get (tools_by_name (ToolNode_init tools handle)) k
    = last (filter (λ t, name t = k) (as_tool <$> tools)).
Proof.
  rewrite init_tools_by_name, fold_dict_get. simpl. by destruct (last _).
Qed.

(** ** What reaches the tools *)

Lemma run_one_trace self call config :
  (_run_one self call config).1
    = option_list (expected_invocation self (call, config)).
Proof.
  unfold expected_invocation. simpl.
  destruct (dict_get (tools_by_name self) (tc_name call)) as [t|] eqn:Hget;
    simpl.
  - destruct (invoke t (tool_call_input call) config) as [out|e] eqn:Hinv.
    + by rewrite (run_one_returns self call config t out).
    + destruct (not_ (handle_tool_errors self)) eqn:Hh.
      * by rewrite (run_one_propagates self call config t e).
      * by rewrite (run_one_isolates self call config t e).
  - by rewrite run_one_unknown.
Qed.

Lemma zip_with_trace {X Y B} (f : X → Y → Exec B)
    (g : X * Y → option Invocation) xs ys :
  (∀ x y, (f x y).1 = option_list (g (x, y))) →
  concat (zip_with f xs ys).*1 = omap g (zip xs ys).
Proof.
  intros Hfg. revert ys.
  induction xs as [|x xs IH]; intros [|y ys]; csimpl; [done..|].
  rewrite IH, Hfg. by destruct (g (x, y)).
Qed.




(** ** The two paths side by side *)




(** ** Which part of the input is read *)

Lemma parse_input_list_snoc l m :
  _parse_input (InList (l ++ [m]))
    = match as_AIMessage (OMsg m) with
      | None => Raise (ValueError "Last message is not an AIMessage")
      | Some ai => Ok (ai, output_list)
      end.
Proof. unfold _parse_input, list_last. by rewrite last_snoc. Qed.

Lemma parse_input_list_singleton m :
  _parse_input (InList [m])
    = match as_AIMessage (OMsg m) with
      | None => Raise (ValueError "Last message is not an AIMessage")
      | Some ai => Ok (ai, output_list)
      end.
Proof. exact (parse_input_list_snoc [] m). Qed.

Lemma parse_input_dict_snoc d l m :
  d !! "messages" = Some (VMessages (l ++ [m])) →
  _parse_input (InDict d)
    = match as_AIMessage (OMsg m) with
      | None => Raise (ValueError "Last message is not an AIMessage")
      | Some ai => Ok (ai, output_dict)
      end.
Proof.
  intros Hd. unfold _parse_input, get_messages. rewrite Hd. simpl.
  rewrite bool_decide_eq_false_2 by (by destruct l). simpl.
  unfold list_last. by rewrite last_snoc.
Qed.

(** X5.  Only the last message is dispatched: the messages before it,
    and any tool calls they carry, change neither the tools called nor
    the result.  A dictionary state is treated as the list under its
    ["messages"] key, whatever its other keys hold, and differs from the
    list state only in that the records come back under ["messages"]. *)
Theorem only_the_last_message_is_dispatched
    get_config_list schedule self config l m :
  _func get_config_list self (InList (l ++ [m])) config
    = _func get_config_list self (InList [m]) config
  ∧ _afunc schedule self (InList (l ++ [m])) config
    = _afunc schedule self (InList [m]) config
  ∧ ∀ d, d !! "messages" = Some (VMessages (l ++ [m])) →
      (_func get_config_list self (InDict d) config).1
        = (_func get_config_list self (InList [m]) config).1
      ∧ (_func get_config_list self (InDict d) config).2
        = rmap as_dict_output
            (_func get_config_list self (InList [m]) config).2
      ∧ (_afunc schedule self (InDict d) config).1
        = (_afunc schedule self (InList [m]) config).1
      ∧ (_afunc schedule self (InDict d) config).2
        = rmap as_dict_output (_afunc schedule self (InList [m]) config).2.
Proof.
  split_and!.
  - unfold _func.
    by rewrite (parse_input_list_snoc l), parse_input_list_singleton.
  - unfold _afunc.
    by rewrite (parse_input_list_snoc l), parse_input_list_singleton.
  - intros d Hd.
    destruct (as_AIMessage (OMsg m)) as [ai|] eqn:Hai.
    + assert (m = AIMessage ai) as ->.
      { destruct m; simpl in Hai; by simplify_eq. }
      assert (well_formed (InDict d) ai) as Hdict.
      { exists (l ++ [AIMessage ai]). by rewrite last_snoc. }
      assert (well_formed (InList [AIMessage ai]) ai) as Hlist by done.
      rewrite !(func_parsed _ _ _ _ ai Hdict), !(func_parsed _ _ _ _ ai Hlist),
        !(afunc_parsed _ _ _ _ ai Hdict), !(afunc_parsed _ _ _ _ ai Hlist).
      simpl. split_and!; try done.
      * by destruct (sequence _).
      * destruct (first_raised _ _); [done|]. by destruct (sequence _).
    + unfold _func, _afunc.
      rewrite (parse_input_dict_snoc d l m Hd), parse_input_list_singleton,
        Hai.
      done.
Qed.

Lemma only_the_last_message_is_dispatched_witness :
  (_func Scenario.get_config_list Scenario.node Scenario.dict_input
     Scenario.config).2
  = rmap as_dict_output
      (_func Scenario.get_config_list Scenario.node
         (InList [AIMessage Scenario.ai_message]) Scenario.config).2.
Proof.
  refine (proj1 (proj2 (proj2 (proj2 (only_the_last_message_is_dispatched
    Scenario.get_config_list [] Scenario.node Scenario.config
    [HumanMessage "hello"] (AIMessage Scenario.ai_message))) _ _))).
  apply lookup_singleton_eq.
Defined.

(** X6.  What [_parse_input] raises, and when.  An empty list raises
    [IndexError], not the [ValueError] of the dictionary path; a
    dictionary whose ["messages"] entry is missing, [None], empty or
    otherwise false raises [ValueError("No message found in input")];
    a last message that is not an [AIMessage] raises
    [ValueError("Last message is not an AIMessage")] for both shapes. *)
Theorem parse_input_errors :
  _parse_input (InList []) = Raise (IndexError "list index out of range")
  ∧ (∀ d, truthy (get_messages d) = false →
       _parse_input (InDict d)
         = Raise (ValueError "No message found in input"))
  ∧ (∀ d, d !! "messages" = None →
       _parse_input (InDict d)
         = Raise (ValueError "No message found in input"))
  ∧ (∀ input l m,
       input = InList l
       ∨ (∃ d, input = InDict d ∧ d !! "messages" = Some (VMessages l)) →
       last l = Some m →
       (∀ ai, m ≠ AIMessage ai) →
       _parse_input input
         = Raise (ValueError "Last message is not an AIMessage")).
Proof.
  split_and!.
  - done.
  - intros d Hfalse. unfold _parse_input. by rewrite Hfalse.
  - intros d Hd. unfold _parse_input, get_messages. by rewrite Hd.
  - intros input l m Hinput Hlast Hnot.
    assert (as_AIMessage (OMsg m) = None) as Hnone.
    { destruct m; simpl; try done. by destruct (Hnot m). }
    destruct l as [|m0 l0] using rev_ind; [done|].
    rewrite last_snoc in Hlast. injection Hlast as ->.
    destruct Hinput as [->|(d & -> & Hd)].
    + by rewrite parse_input_list_snoc, Hnone.
    + by rewrite (parse_input_dict_snoc d l0 m Hd), Hnone.
Qed.

Lemma parse_input_errors_witness :
  _parse_input (InList [AIMessage Scenario.ai_message; HumanMessage "thanks"])
    = Raise (ValueError "Last message is not an AIMessage").
Proof.
  apply (proj2 (proj2 (proj2 parse_input_errors)) _
    [AIMessage Scenario.ai_message; HumanMessage "thanks"]
    (HumanMessage "thanks")); [by left|reflexivity|discriminate].
Defined.

(** ** The router and the node on the same state *)

Lemma router_node_view state :
  (∃ ai,
     _parse_input state = Ok (ai, shape_of state)
     ∧ tools_condition state
       = Ok (if bool_decide (0 < length (tool_calls ai)) then "tools"
             else "__end__"))
  ∨ (_parse_input state
       = Raise (ValueError "Last message is not an AIMessage")
     ∧ tools_condition state = Ok "__end__")
  ∨ (∃ e e',
       _parse_input state = Raise e' ∧ tools_condition state = Raise e
       ∧ exc_class e' = exc_class e).
Proof.
  destruct state as [l|d]; unfold _parse_input, tools_condition.
  - unfold list_last.
    destruct (last l) as [[ai| | | | |]|]; simpl;
      [left|right; left; done..|right; right; by eexists _, _].
    exists ai. split; [done|]. by case_bool_decide.
  - unfold get_messages.
    destruct (d !! "messages") as [[|b|z|s|l]|]; simpl;
      try (right; right; by eexists _, _).
    + destruct b; right; right; by eexists _, _.
    + destruct (negb (z =? 0)%Z); right; right; by eexists _, _.
    + destruct (String.eqb s ""); simpl;
        [right; right; by eexists _, _|by right; left].
    + case_bool_decide as Hl; simpl; [right; right; by eexists _, _|].
      unfold list_last.
      destruct (last l) as [[ai| | | | |]|] eqn:Hlast; simpl;
        [left|right; left; done..|by apply last_None in Hlast].
      exists ai. split; [done|]. by case_bool_decide.
Qed.

(** X7.  A state that [tools_condition] routes to ["tools"] is one the
    node accepts: with error interception on, dispatching it returns at
    least one record, one per tool call of the last message. *)
Theorem routed_to_tools_is_dispatched get_config_list self state config :
  (∀ c n, length (get_config_list c n) = n) →
  handle_tool_errors self = Some true →
  tools_condition state = Ok "tools" →
  ∃ message outputs,
    well_formed state message
    ∧ (_func get_config_list self state config).2
      = Ok (assemble (shape_of state) outputs)
    ∧ length outputs = length (tool_calls message)
    ∧ outputs ≠ [].
Proof.
  intros Hgcl Hh Hroute.
  destruct (router_node_view state)
    as [(ai & Hparse & Htools)|[[_ Hend]|(e & e' & _ & Hraise & _)]];
    [|congruence..].
  rewrite Hroute in Htools. case_bool_decide as Hcalls; [|done].
  apply parse_input_Ok in Hparse as [Hwf _].
  destruct (func_returns_when_handled get_config_list self state config ai
    Hgcl Hwf) as [outputs Hout]; [by apply not_handle_false|].
  exists ai, outputs. split_and!; [done..| |].
  - apply (func_outputs_pointwise _ _ _ _ ai Hwf) in Hout.
    apply (f_equal length) in Hout.
    rewrite length_zip_with, length_fmap, Hgcl in Hout. lia.
  - apply (func_outputs_pointwise _ _ _ _ ai Hwf) in Hout.
    apply (f_equal length) in Hout.
    rewrite length_zip_with, length_fmap, Hgcl in Hout.
    intros ->. simpl in Hout. lia.
Qed.

Lemma routed_to_tools_is_dispatched_witness :
  ∃ message outputs,
    well_formed Scenario.dict_input message
    ∧ (_func Scenario.get_config_list Scenario.node Scenario.dict_input
         Scenario.config).2 = Ok (OutDict {[ "messages" := outputs ]})
    ∧ length outputs = length (tool_calls message)
    ∧ outputs ≠ [].
Proof.
  apply (routed_to_tools_is_dispatched Scenario.get_config_list
    Scenario.node Scenario.dict_input Scenario.config).
  - intros c n. apply length_replicate.
  - reflexivity.
  - reflexivity.
Defined.

(** X8.  A state that [tools_condition] routes to ["__end__"] leaves the
    node nothing to run: dispatching it either raises
    [ValueError("Last message is not an AIMessage")] or returns the empty
    output, and calls no tool.  A state on which [tools_condition] raises
    makes the node raise too, an exception of the same class, before any
    tool is called. *)
Theorem routed_to_end_has_nothing_to_dispatch
    get_config_list self state config :
  (tools_condition state = Ok "__end__" →
     _func get_config_list self state config
       = ([], Raise (ValueError "Last message is not an AIMessage"))
     ∨ _func get_config_list self state config
       = ([], Ok (assemble (shape_of state) [])))
  ∧ (∀ e, tools_condition state = Raise e →
       ∃ e', _func get_config_list self state config = ([], Raise e')
             ∧ exc_class e' = exc_class e).
Proof.
  destruct (router_node_view state)
    as [(ai & Hparse & Htools)|[[Hparse Hend]|(e & e' & Hparse & Hraise & Hc)]].
  - split; [|congruence]. rewrite Htools.
    case_bool_decide as Hcalls; [done|]. intros _. right.
    apply parse_input_Ok in Hparse as [Hwf _].
    rewrite (func_parsed _ _ _ _ ai Hwf).
    destruct (tool_calls ai); simpl in *; [done|lia].
  - split; [|congruence]. intros _. left. unfold _func. by rewrite Hparse.
  - split; [congruence|]. intros e0 He0. exists e'.
    split; [unfold _func; by rewrite Hparse|congruence].
Qed.

Lemma routed_to_end_has_nothing_to_dispatch_witness :
  _func Scenario.get_config_list Scenario.node
    (InList [AIMessage Scenario.ai_message_no_calls]) Scenario.config
    = ([], Raise (ValueError "Last message is not an AIMessage"))
  ∨ _func Scenario.get_config_list Scenario.node
      (InList [AIMessage Scenario.ai_message_no_calls]) Scenario.config
    = ([], Ok (OutList [])).
Proof.
  apply (proj1 (routed_to_end_has_nothing_to_dispatch
    Scenario.get_config_list Scenario.node
    (InList [AIMessage Scenario.ai_message_no_calls]) Scenario.config)).
  reflexivity.
Defined.

(** ** Records and their calls *)

Lemma run_one_call_id self call config out :
  (∀ k t, dict_get (tools_by_name self) k = Some t → echoes_call_id t) →
  (_run_one self call config).2 = Ok out →
  tool_call_id out = tc_id call.
Proof.
  intros Hecho.
  destruct (dict_get (tools_by_name self) (tc_name call)) as [t|] eqn:Hget.
  - destruct (invoke t (tool_call_input call) config) as [out'|e] eqn:Hinv.
    + rewrite (run_one_returns self call config t out') by done.
      intros [= <-]. by apply (Hecho _ _ Hget) in Hinv.
    + destruct (not_ (handle_tool_errors self)) eqn:Hh.
      * by rewrite (run_one_propagates self call config t e).
      * rewrite (run_one_isolates self call config t e) by done.
        by intros [= <-].
  - rewrite run_one_unknown by done. by intros [= <-].
Qed.

Lemma batch_call_ids self calls configs outputs :
  (∀ k t, dict_get (tools_by_name self) k = Some t → echoes_call_id t) →
  length configs = length calls →
  zip_with (λ call c, (_run_one self call c).2) calls configs
    = Ok <$> outputs →
  tool_call_id <$> outputs = tc_id <$> calls.
Proof.
  intros Hecho. revert configs outputs.
  induction calls as [|call calls IH];
    intros [|c configs] [|out outputs] Hlen Hzip; simplify_eq/=; [done|].
  f_equal; [by eapply run_one_call_id|]. by eapply IH.
Qed.

(** X9.  When every tool of the catalog answers a call with the id of
    that call, the records a dispatch returns carry, position by
    position, the ids of the invocations: error records included. *)
Theorem records_carry_the_ids_of_their_calls
    get_config_list self input config message outputs :
  (∀ c n, length (get_config_list c n) = n) →
  (∀ k t, dict_get (tools_by_name self) k = Some t → echoes_call_id t) →
  well_formed input message →
  (_func get_config_list self input config).2
    = Ok (assemble (shape_of input) outputs) →
  tool_call_id <$> outputs = tc_id <$> tool_calls message.
Proof.
  intros Hgcl Hecho Hwf Hout.
  apply (func_outputs_pointwise _ _ _ _ message Hwf) in Hout.
  eapply batch_call_ids; [done| |done]. apply Hgcl.
Qed.

Lemma records_carry_the_ids_of_their_calls_witness :
  ∃ outputs,
    (_func Scenario.get_config_list Scenario.node Scenario.list_input
       Scenario.config).2 = Ok (OutList outputs)
    ∧ tool_call_id <$> outputs = ["call-1"; "call-2"; "call-3"].
Proof.
  destruct (func_returns_when_handled Scenario.get_config_list Scenario.node
    Scenario.list_input Scenario.config Scenario.ai_message
    (λ c n, length_replicate n c) eq_refl eq_refl) as [outputs Hout].
  exists outputs. split; [done|].
  refine (records_carry_the_ids_of_their_calls Scenario.get_config_list
    Scenario.node Scenario.list_input Scenario.config Scenario.ai_message
    outputs (λ c n, length_replicate n c) _ eq_refl Hout).
  intros k t Hget input c out.
  change (tools_by_name Scenario.node)
    with [("search", Scenario.search); ("divide", Scenario.divide)] in Hget.
  simpl in Hget. repeat case_decide; simplify_eq; simpl; [|done].
  by intros [= <-].
Defined.

(** ** The interception flag *)

Lemma run_one_flag_irrelevant self handle' call config :
  (∀ t, dict_get (tools_by_name self) (tc_name call) = Some t →
        is_ok (invoke t (tool_call_input call) config) = true) →
  _run_one (mkToolNode (tools_by_name self) handle') call config
    = _run_one self call config.
Proof.
  intros Hok.
  destruct (dict_get (tools_by_name self) (tc_name call)) as [t|] eqn:Hget.
  - specialize (Hok t eq_refl).
    destruct (invoke t (tool_call_input call) config) as [out|e] eqn:Hinv;
      [|done].
    by rewrite !(run_one_returns _ call config t out).
  - by rewrite !run_one_unknown.
Qed.

(** X10.  [handle_tool_errors] only matters when a tool raises: if no
    tool called for the trigger raises, the dispatch calls the same tools
    and returns the same output whatever the flag.  Leaving the flag
    [None] is the same as setting it to [False]. *)
Theorem interception_flag_only_matters_on_failure
    get_config_list self handle' input config :
  ((∀ message j call c t,
      well_formed input message →
      tool_calls message !! j = Some call →
      get_config_list config (length (tool_calls message)) !! j = Some c →
      dict_get (tools_by_name self) (tc_name call) = Some t →
      is_ok (invoke t (tool_call_input call) c) = true) →
   _func get_config_list (mkToolNode (tools_by_name self) handle') input config
     = _func get_config_list self input config)
  ∧ _func get_config_list (mkToolNode (tools_by_name self) None) input config
    = _func get_config_list (mkToolNode (tools_by_name self) (Some false))
        input config.
Proof.
  split; [|done]. intros Hok.
  destruct (_parse_input input) as [[message output_type]|e] eqn:Hparse.
  - apply parse_input_Ok in Hparse as [Hwf _].
    rewrite !(func_parsed _ _ _ _ message Hwf). simpl.
    assert (zip_with (_run_one (mkToolNode (tools_by_name self) handle'))
              (tool_calls message)
              (get_config_list config (length (tool_calls message)))
            = zip_with (_run_one self) (tool_calls message)
                (get_config_list config (length (tool_calls message))))
      as ->; [|done].
    apply list_eq. intros j. rewrite !lookup_zip_with.
    destruct (tool_calls message !! j) as [call|] eqn:Hcall; [|done].
    simpl.
    destruct (get_config_list config (length (tool_calls message)) !! j)
      as [c|] eqn:Hc; [|done].
    simpl. f_equal. apply run_one_flag_irrelevant. eauto.
  - unfold _func. by rewrite Hparse.
Qed.

Lemma interception_flag_only_matters_on_failure_witness :
  _func Scenario.get_config_list
    (mkToolNode (tools_by_name Scenario.node) (Some false))
    (InList [AIMessage (mkAIMessage ""
       [Scenario.call_search; Scenario.call_weather])]) Scenario.config
  = _func Scenario.get_config_list Scenario.node
      (InList [AIMessage (mkAIMessage ""
         [Scenario.call_search; Scenario.call_weather])]) Scenario.config.
Proof.
  apply (proj1 (interception_flag_only_matters_on_failure
    Scenario.get_config_list Scenario.node (Some false) _ Scenario.config)).
  intros message j call c t Hwf Hcall Hc Hget.
  simpl in Hwf. injection Hwf as <-.
  destruct j as [|[|[|j]]]; simplify_eq/=; done.
Defined.

(** X11.  With error interception off, an invocation of a tool of the
    catalog gives back exactly what the tool gives: the message it
    returns, or the exception it raises, unchanged. *)
Theorem without_interception_the_tool_result_is_passed_through
    self call config t :
  handle_tool_errors self ≠ Some true →
  dict_get (tools_by_name self) (tc_name call) = Some t →
  (_run_one self call config).2 = invoke t (tool_call_input call) config
  ∧ (_arun_one self call config).2
    = ainvoke t (tool_call_input call) config.
Proof.
  intros Hh%not_handle_true Hget. split.
  - destruct (invoke t (tool_call_input call) config) as [out|e] eqn:Hinv.
    + by rewrite (run_one_returns self call config t out).
    + by rewrite (run_one_propagates self call config t e).
  - destruct (ainvoke t (tool_call_input call) config) as [out|e] eqn:Hinv.
    + by rewrite (arun_one_returns self call config t out).
    + by rewrite (arun_one_propagates self call config t e).
Qed.

Lemma without_interception_the_tool_result_is_passed_through_witness :
  (_run_one Scenario.strict_node Scenario.call_divide Scenario.config).2
    = invoke Scenario.divide (tool_call_input Scenario.call_divide)
        Scenario.config.
Proof.
  refine (proj1 (without_interception_the_tool_result_is_passed_through
    Scenario.strict_node Scenario.call_divide Scenario.config
    Scenario.divide _ _)); [discriminate|reflexivity].
Defined.

(** ** The asynchronous path and the order of completion *)

(** X12.  The order in which the tasks of [_afunc] complete can change
    which exception is raised, never what is returned: an output returned
    under one completion order is returned under every other, and the
    tools called are the same. *)
Theorem completion_order_does_not_change_the_output
    schedule schedule' self input config :
  (_afunc schedule self input config).1
    = (_afunc schedule' self input config).1
  ∧ ∀ output,
      (_afunc schedule self input config).2 = Ok output ↔
      (_afunc schedule' self input config).2 = Ok output.
Proof.
  destruct (_parse_input input) as [[message output_type]|e] eqn:Hparse.
  - apply parse_input_Ok in Hparse as [Hwf _].
    rewrite !(afunc_parsed _ _ _ _ message Hwf). simpl.
    split; [done|]. intros output.
    destruct (sequence _) as [outputs|e] eqn:Hseq.
    + apply sequence_Ok in Hseq. rewrite Hseq.
      by rewrite !first_raised_all_Ok.
    + by destruct (first_raised schedule _), (first_raised schedule' _).
  - unfold _afunc. by rewrite Hparse.
Qed.

(** X13.  With error interception on, the records for a message whose
    tool calls are [calls1] followed by [calls2] are the records for
    [calls1] followed by the records for [calls2], and so are the calls
    made to the tools: no invocation depends on the others of its
    batch. *)
Theorem async_batch_is_the_concatenation_of_its_parts
    schedule schedule1 schedule2 self config text calls1 calls2 :
  handle_tool_errors self = Some true →
  let trigger calls := InList [AIMessage (mkAIMessage text calls)] in
  ∃ outputs1 outputs2,
    (_afunc schedule1 self (trigger calls1) config).2 = Ok (OutList outputs1)
    ∧ (_afunc schedule2 self (trigger calls2) config).2
      = Ok (OutList outputs2)
    ∧ (_afunc schedule self (trigger (calls1 ++ calls2)) config).2
      = Ok (OutList (outputs1 ++ outputs2))
    ∧ (_afunc schedule self (trigger (calls1 ++ calls2)) config).1
      = (_afunc schedule1 self (trigger calls1) config).1
        ++ (_afunc schedule2 self (trigger calls2) config).1.
Proof.
  intros Hh%not_handle_false trigger.
  destruct (abatch_records self calls1 config Hh) as (outputs1 & H1 & _).
  destruct (abatch_records self calls2 config Hh) as (outputs2 & H2 & _).
  exists outputs1, outputs2.
  assert (∀ calls, well_formed (trigger calls) (mkAIMessage text calls))
    as Hwf by done.
  rewrite !(afunc_parsed _ _ _ _ _ (Hwf _)). simpl.
  rewrite map_app, !fmap_app, H1, H2, <-fmap_app, concat_app.
  by rewrite !first_raised_all_Ok, !sequence_fmap_Ok.
Qed.

Lemma async_batch_is_the_concatenation_of_its_parts_witness :
  ∃ outputs1 outputs2,
    (_afunc [0] Scenario.node
       (InList [AIMessage (mkAIMessage "" [Scenario.call_search])])
       Scenario.config).2 = Ok (OutList outputs1)
    ∧ (_afunc [1; 0] Scenario.node
         (InList [AIMessage (mkAIMessage ""
            [Scenario.call_weather; Scenario.call_divide])])
         Scenario.config).2 = Ok (OutList outputs2)
    ∧ (_afunc [2; 1; 0] Scenario.node
         (InList [AIMessage (mkAIMessage ""
            ([Scenario.call_search]
             ++ [Scenario.call_weather; Scenario.call_divide]))])
         Scenario.config).2 = Ok (OutList (outputs1 ++ outputs2))
    ∧ (_afunc [2; 1; 0] Scenario.node
         (InList [AIMessage (mkAIMessage ""
            ([Scenario.call_search]
             ++ [Scenario.call_weather; Scenario.call_divide]))])
         Scenario.config).1
      = (_afunc [0] Scenario.node
           (InList [AIMessage (mkAIMessage "" [Scenario.call_search])])
           Scenario.config).1
        ++ (_afunc [1; 0] Scenario.node
              (InList [AIMessage (mkAIMessage ""
                 [Scenario.call_weather; Scenario.call_divide])])
              Scenario.config).1.
Proof.
  apply (async_batch_is_the_concatenation_of_its_parts [2; 1; 0] [0] [1; 0]
    Scenario.node Scenario.config "" [Scenario.call_search]
    [Scenario.call_weather; Scenario.call_divide]).
  reflexivity.
Defined.

(** ** What [tools_condition] reads *)

(** X14.  [tools_condition] reads the last message only, and reads a
    dictionary state as the list under its ["messages"] key.  The two
    shapes differ on the empty state: an empty list raises [IndexError],
    a dictionary whose ["messages"] entry is missing or empty raises
    [ValueError]. *)
Theorem tools_condition_reads_the_last_message l m :
  tools_condition (InList (l ++ [m])) = tools_condition (InList [m])
  ∧ (∀ d, d !! "messages" = Some (VMessages (l ++ [m])) →
       tools_condition (InDict d) = tools_condition (InList [m]))
  ∧ (∃ e, tools_condition (InList []) = Raise e
          ∧ exc_class e = "IndexError")
  ∧ (∀ d, d !! "messages" = None ∨ d !! "messages" = Some (VMessages []) →
       ∃ e, tools_condition (InDict d) = Raise e
            ∧ exc_class e = "ValueError").
Proof.
  split_and!.
  - unfold tools_condition, list_last. by rewrite last_snoc.
  - intros d Hd. unfold tools_condition, get_messages, list_last.
    rewrite Hd. simpl.
    rewrite bool_decide_eq_false_2 by (by destruct l). simpl.
    unfold list_last. by rewrite last_snoc.
  - by eexists.
  - intros d [Hd|Hd]; unfold tools_condition, get_messages; rewrite Hd;
      by eexists.
Qed.

Lemma tools_condition_reads_the_last_message_witness :
  tools_condition Scenario.dict_input
    = tools_condition (InList [AIMessage Scenario.ai_message]).
Proof.
  apply (proj1 (proj2 (tools_condition_reads_the_last_message
    [HumanMessage "hello"] (AIMessage Scenario.ai_message)))).
  apply lookup_singleton_eq.
Defined.

(** ** Calls are dispatched by name *)

Lemma init_catalog_names tools handle k t :
  dict_get (tools_by_name (ToolNode_init tools handle)) k = Some t →
  name t = k ∧ ∃ tool_, tool_ ∈ tools ∧ as_tool tool_ = t.
Proof.
  rewrite init_tools_by_name, fold_dict_get. simpl.
  destruct (last _) as [t'|] eqn:Hlast; [|done]. intros [= ->].
  assert (t ∈ filter (λ t, name t = k) (as_tool <$> tools)) as Hin.
  { apply last_Some in Hlast as [l' ->]. set_solver. }
  apply list_elem_of_filter in Hin as [Hname Hin].
  apply list_elem_of_fmap in Hin as (tool_ & -> & Hin). eauto.
Qed.

(** X15.  A node built by [__init__] only ever calls a tool under the
    name the invocation asked for: every call made during a dispatch goes
    to one of the registered tools, the name of that tool is the name in
    the invocation it is handed, and that invocation is marked
    ["tool_call"]. *)
Theorem calls_go_to_the_tool_of_the_requested_name
    get_config_list tools handle input config inv :
  inv ∈ (_func get_config_list (ToolNode_init tools handle) input config).1 →
  inv_tool inv = in_name (inv_input inv)
  ∧ in_type (inv_input inv) = "tool_call"
  ∧ ∃ tool_, tool_ ∈ tools ∧ name (as_tool tool_) = inv_tool inv.
Proof.
  set (self := ToolNode_init tools handle).
  destruct (_parse_input input) as [[message output_type]|e] eqn:Hparse.
  - apply parse_input_Ok in Hparse as [Hwf _].
    rewrite (func_parsed _ _ _ _ message Hwf). simpl.
    rewrite (zip_with_trace _ (expected_invocation self))
      by (intros; apply run_one_trace).
    intros ([call c] & _ & Hinv)%list_elem_of_omap.
    unfold expected_invocation in Hinv. cbn [fst snd] in Hinv.
    destruct (dict_get (tools_by_name self) (tc_name call)) as [t|] eqn:Hget;
      [|done].
    injection Hinv as <-.
    apply init_catalog_names in Hget as (Hname & tool_ & Hin & <-).
    split_and!; [done..|]. by exists tool_.
  - unfold _func. rewrite Hparse. simpl. by intros ?%elem_of_nil.
Qed.

Lemma calls_go_to_the_tool_of_the_requested_name_witness :
  inv_tool (mkInvocation "search" (tool_call_input Scenario.call_search)
              Scenario.config)
    = in_name (tool_call_input Scenario.call_search)
  ∧ in_type (tool_call_input Scenario.call_search) = "tool_call"
  ∧ ∃ tool_, tool_ ∈ [inl Scenario.search; inl Scenario.divide]
             ∧ name (as_tool tool_) = "search".
Proof.
  apply (calls_go_to_the_tool_of_the_requested_name
    Scenario.get_config_list [inl Scenario.search; inl Scenario.divide]
    (Some true) Scenario.list_input Scenario.config
    (mkInvocation "search" (tool_call_input Scenario.call_search)
       Scenario.config)).
  apply list_elem_of_here.
Defined.

(** X16.  When the blocking path raises, what it raises is the exception
    of the earliest invocation in the list whose tool raised: no
    invocation before it raised, whatever the order in which the workers
    finished. *)
Theorem blocking_path_raises_the_earliest_failure
    get_config_list self input config message e :
  well_formed input message →
  (_func get_config_list self input config).2 = Raise e →
  let calls := tool_calls message in
  let configs := get_config_list config (length calls) in
  ∃ j call c t,
    calls !! j = Some call ∧ configs !! j = Some c
    ∧ dict_get (tools_by_name self) (tc_name call) = Some t
    ∧ invoke t (tool_call_input call) c = Raise e
    ∧ ∀ j' call' c' t' e',
        j' < j →
        calls !! j' = Some call' → configs !! j' = Some c' →
        dict_get (tools_by_name self) (tc_name call') = Some t' →
        invoke t' (tool_call_input call') c' ≠ Raise e'.
Proof.
  intros Hwf Hraise calls configs.
  rewrite (func_parsed _ _ _ _ message Hwf) in Hraise. simpl in Hraise.
  rewrite zip_with_snd, rmap_Raise in Hraise.
  apply sequence_Raise in Hraise as (j & Hj & Hbefore).
  apply lookup_zip_with_Some in Hj as (call & c & Hr & Hcall & Hc).
  symmetry in Hr. apply run_one_raises in Hr as (Hh & t & Hget & Hinv).
  exists j, call, c, t. split_and!; [done..|].
  intros j' call' c' t' e' Hlt Hcall' Hc' Hget' Hinv'.
  destruct (Hbefore j' Hlt) as [out Hout].
  apply lookup_zip_with_Some in Hout as (call'' & c'' & Hr' & Hcall'' & Hc'').
  assert (call'' = call') as -> by (unfold calls in *; congruence).
  assert (c'' = c') as -> by (unfold configs, calls in *; congruence).
  by rewrite (run_one_propagates self call' c' t' e') in Hr'.
Qed.

Lemma blocking_path_raises_the_earliest_failure_witness :
  ∃ j call c t,
    Scenario.calls !! j = Some call
    ∧ Scenario.get_config_list Scenario.config 3 !! j = Some c
    ∧ dict_get (tools_by_name Scenario.strict_node) (tc_name call) = Some t
    ∧ invoke t (tool_call_input call) c
      = Raise (mkException "ZeroDivisionError"
                 "ZeroDivisionError('division by zero')")
    ∧ ∀ j' call' c' t' e',
        j' < j →
        Scenario.calls !! j' = Some call' →
        Scenario.get_config_list Scenario.config 3 !! j' = Some c' →
        dict_get (tools_by_name Scenario.strict_node) (tc_name call')
          = Some t' →
        invoke t' (tool_call_input call') c' ≠ Raise e'.
Proof.
  apply (blocking_path_raises_the_earliest_failure
    Scenario.get_config_list Scenario.strict_node Scenario.list_input
    Scenario.config Scenario.ai_message); reflexivity.
Defined.
